(** * my-awesome-site: the NBA data harvesting scripts

    A shallow embedding of [scripts/fetch_team_rosters.py],
    [scripts/fetch_player_data.py] and [scripts/generate_player_names.py];
    [scripts/crawler.py] only calls the two harvesters one after the other.

    The scripts talk to three collaborators: the statistics provider
    ([nba_api]), the file system below [BASE_DATA_DIR], and the console.
    The file system is a finite map from paths to files, the console and
    every call are recorded in a chronological trace, and the answers of the
    provider and of [DataFrame.to_json] come from an [environment] that may
    look at everything that has happened so far.  Python exceptions are
    explicit: a computation either returns or raises, and [try_except] is
    the only place where a raised exception is turned back into a return.

    What is left out: the [os.makedirs] and the two [print]s that run when a
    harvester module is imported; the file sizes in the progress messages;
    exceptions that are not an [Exception], such as [KeyboardInterrupt].
    The frames of the provider have the columns of its endpoints, so that
    indexing one by [TEAM_ID], [PERSON_ID] or [TEAM_ABBREVIATION] does not
    fail.  [time.sleep] takes its argument here in milliseconds. *)

From Stdlib Require Import ZArith Ascii String List Lia.
From Stdlib Require Import Floats.SpecFloat.
From stdpp Require Import base option list gmap sets strings pretty.

Set Warnings "-clear-no-such-hyp".

(** ** Values read from and written to JSON files *)

(** A JSON value as [json.load] returns it, which is also what a cell of a
    pandas frame may hold.  An object keeps its members in document order;
    [json.load] lets the last of several equal names win. *)
#[warnings="-register-all"]
Inductive json : Type :=
| JNull
| JBool (b : bool)
| JInt (n : Z)
| JFloat (f : spec_float)
| JStr (s : string)
| JArr (items : list json)
| JObj (members : list (string * json)).

(** Python's [bool(v)] on such a value. *)
Definition truthy (v : json) : bool :=
  match v with
  | JNull => false
  | JBool b => b
  | JInt n => negb (n =? 0)%Z
  | JFloat (S754_zero _) => false
  | JFloat _ => true
  | JStr s => negb (String.eqb s "")
  | JArr items => match items with [] => false | _ => true end
  | JObj members => match members with [] => false | _ => true end
  end.

(** [d.get(name)] on the dict built from an object: the last member with
    that name, [None] (here [JNull]) when there is none. *)
Fixpoint dict_get (name : string) (members : list (string * json)) : json :=
  match members with
  | [] => JNull
  | (k, v) :: rest =>
      if existsb (λ kv, String.eqb kv.1 name) rest then dict_get name rest
      else if String.eqb k name then v else JNull
  end.

(** ** Exceptions and the computation monad *)

Inductive exn : Type := Exception (message : string).

Inductive outcome (A : Type) : Type :=
| Returned (a : A)
| Raised (e : exn).
Arguments Returned {A} a.
Arguments Raised {A} e.

(** A computation over a state [S]: local variables and the outside world. *)
Definition py (S A : Type) : Type := S → outcome A * S.

Definition ret {S A} (a : A) : py S A := λ s, (Returned a, s).

Definition bind {S A B} (m : py S A) (k : A → py S B) : py S B :=
  λ s, match m s with
       | (Returned a, s') => k a s'
       | (Raised e, s') => (Raised e, s')
       end.

Definition raise {S A} (e : exn) : py S A := λ s, (Raised e, s).

(** [try: body / except Exception as e: handler e]. *)
Definition try_except {S A} (body : py S A) (handler : exn → py S A) : py S A :=
  λ s, match body s with
       | (Returned a, s') => (Returned a, s')
       | (Raised e, s') => handler e s'
       end.

Declare Scope py_scope.
Delimit Scope py_scope with py.
Notation "'let*' x ':=' m 'in' k" := (bind m (λ x, k))
  (at level 10, x name, m at level 100, k at level 200) : py_scope.
Notation "m >> k" := (bind m (λ _, k))
  (at level 100, k at level 200, right associativity) : py_scope.

(** [for x in xs: body x]. *)
Fixpoint for_each {S A} (xs : list A) (body : A → py S unit) : py S unit :=
  match xs with
  | [] => ret tt
  | x :: rest => (body x >> for_each rest body)%py
  end.

(** [for idx, x in enumerate(xs, start): body idx x]. *)
Fixpoint for_enumerate {S A} (start : Z) (xs : list A)
    (body : Z → A → py S unit) : py S unit :=
  match xs with
  | [] => ret tt
  | x :: rest => (body start x >> for_enumerate (start + 1) rest body)%py
  end.

(** ** Frames of the provider and files of the store *)

(** A row of [CommonAllPlayers]: the two columns the harvester reads. *)
Record player_row : Type := PlayerRow { PERSON_ID : Z; TEAM_ID : Z }.

(** A [CommonTeamRoster] frame is written as it comes: its rows as records. *)
Definition roster_frame : Type := list (list (string * json)).

(** A row of [PlayerCareerStats]: the column the harvester filters on and
    the remaining columns. *)
Record career_row : Type :=
  CareerRow { TEAM_ABBREVIATION : json; career_columns : list (string * json) }.

(** What a path of the store holds.  [to_json(path, orient='records')] is a
    function of the frame, so a file written by it is identified with the
    frame; anything else is raw bytes. *)
Inductive file : Type :=
| RosterJson (roster : roster_frame)
| CareerJson (career : list career_row)
| RawFile (bytes : string).

(** How a call of [to_json] ends: the file is there; nothing was raised but
    the file is not there (the case both scripts test for); or an exception,
    after which a truncated file may be left at the path. *)
Inductive write_outcome : Type :=
| Written
| NotCreated
| WriteFailed (e : exn) (left_behind : option string).

(** ** Console messages, one constructor per [print] of the harvesters *)

Inductive message : Type :=
| MsgProcessing (season : string)
| MsgFetchingRoster (team_id : Z) (season : string)
| MsgRosterSaved (path : string)
| MsgRosterNotCreated (path : string)
| MsgErrorSavingTeam (team_id : Z) (e : exn)
| MsgErrorInSeason (season : string) (e : exn)
| MsgSavingPlayers (n : Z)
| MsgProgress (idx n p_id : Z)
| MsgPlayerNotCreated (p_id : Z) (path : string)
| MsgErrorFetchingPlayer (p_id : Z) (e : exn)
| MsgSuppressing
| MsgComplete (saved skipped errors : Z).

(** ** The trace and the world *)

Inductive event : Type :=
| EvPrint (m : message)
| EvAllPlayers (season : string) (r : exn + list player_row)
| EvTeamRoster (team_id : Z) (season : string) (r : exn + roster_frame)
| EvCareerStats (p_id : Z) (r : exn + list career_row)
| EvExists (path : string) (b : bool)
| EvToJson (path : string) (f : file) (o : write_outcome)
| EvSleep (milliseconds : Z).

Record world : Type := World { store : gmap string file; trace : list event }.

(** The collaborators.  Each answer may depend on the trace so far, so the
    provider may fail now and succeed later, or change its listing. *)
Record environment : Type := Environment {
  CommonAllPlayers : list event → string → exn + list player_row;
  CommonTeamRoster : list event → Z → string → exn + roster_frame;
  PlayerCareerStats : list event → Z → exn + list career_row;
  to_json_outcome : list event → string → file → write_outcome
}.

Definition log (e : event) (w : world) : world :=
  World (store w) (trace w ++ [e]).

Section primitives.
Context {L : Type}.
Implicit Types (s : L * world).

Definition emit (e : event) : py (L * world) unit :=
  λ s, (Returned tt, (s.1, log e s.2)).

Definition print (m : message) : py (L * world) unit := emit (EvPrint m).

Definition time_sleep (milliseconds : Z) : py (L * world) unit :=
  emit (EvSleep milliseconds).

Definition os_path_exists (path : string) : py (L * world) bool :=
  λ s, let b := bool_decide (is_Some (store s.2 !! path)) in
       (Returned b, (s.1, log (EvExists path b) s.2)).

Definition answer {A} (r : exn + A) (e : event) : py (L * world) A :=
  λ s, (match r with inl x => Raised x | inr a => Returned a end,
        (s.1, log e s.2)).

Definition get_all_players (env : environment) (season : string)
    : py (L * world) (list player_row) :=
  λ s, let r := CommonAllPlayers env (trace s.2) season in
       answer r (EvAllPlayers season r) s.

Definition get_team_roster (env : environment) (team_id : Z) (season : string)
    : py (L * world) roster_frame :=
  λ s, let r := CommonTeamRoster env (trace s.2) team_id season in
       answer r (EvTeamRoster team_id season r) s.

Definition get_career_stats (env : environment) (p_id : Z)
    : py (L * world) (list career_row) :=
  λ s, let r := PlayerCareerStats env (trace s.2) p_id in
       answer r (EvCareerStats p_id r) s.

(** [frame.to_json(path, orient='records')]. *)
Definition to_json (env : environment) (path : string) (f : file)
    : py (L * world) unit :=
  λ s, let o := to_json_outcome env (trace s.2) path f in
       let tr := trace s.2 ++ [EvToJson path f o] in
       match o with
       | Written => (Returned tt, (s.1, World (<[path := f]> (store s.2)) tr))
       | NotCreated => (Returned tt, (s.1, World (store s.2) tr))
       | WriteFailed e None => (Raised e, (s.1, World (store s.2) tr))
       | WriteFailed e (Some bytes) =>
           (Raised e, (s.1, World (<[path := RawFile bytes]> (store s.2)) tr))
       end.

Definition get_locals : py (L * world) L := λ s, (Returned s.1, s).

Definition set_locals (f : L → L) : py (L * world) unit :=
  λ s, (Returned tt, (f s.1, s.2)).
End primitives.

(** ** fetch_team_rosters.py *)

(** [s[-2:]]. *)
Definition last_two (s : string) : string :=
  substring (String.length s - 2) 2 s.

(** [f"{year}-{str(year+1)[-2:]}"]. *)
Definition season_str (year : Z) : string :=
  pretty year +:+ "-" +:+ last_two (pretty (year + 1)%Z).

(** [Series.unique()]: the distinct values in order of first appearance. *)
Fixpoint unique_from {A} `{EqDecision A} (seen xs : list A) : list A :=
  match xs with
  | [] => []
  | x :: rest =>
      if bool_decide (x ∈ seen) then unique_from seen rest
      else x :: unique_from (x :: seen) rest
  end.
Definition unique {A} `{EqDecision A} (xs : list A) : list A := unique_from [] xs.

(** [all_players[all_players['TEAM_ID'] != 0]['TEAM_ID'].unique()]. *)
Definition valid_teams (all_players : list player_row) : list Z :=
  unique (TEAM_ID <$> filter (λ r, TEAM_ID r ≠ 0%Z) all_players).

Section rosters.
Variable BASE_DATA_DIR : string.
Variable env : environment.

Definition team_file (team_id : Z) (season : string) : string :=
  BASE_DATA_DIR +:+ "/teams/" +:+ pretty team_id +:+ "_" +:+ season +:+ ".json".

(** The body of [for team_id in valid_teams]; the only local variable of
    the function is the set [player_ids_to_fetch]. *)
Definition save_roster (season : string) (team_id : Z)
    : py (gset Z * world) unit :=
  (let path := team_file team_id season in
   let* present := os_path_exists path in
   if negb present then
     print (MsgFetchingRoster team_id season) >>
     try_except
       (let* roster := get_team_roster env team_id season in
        to_json env path (RosterJson roster) >>
        let* created := os_path_exists path in
        (if created then print (MsgRosterSaved path)
         else print (MsgRosterNotCreated path)) >>
        time_sleep 800)
       (λ e, print (MsgErrorSavingTeam team_id e))
   else ret tt)%py.

(** The body of [for year in range(after_year, current_year + 1)]. *)
Definition process_season (year : Z) : py (gset Z * world) unit :=
  (let season := season_str year in
   print (MsgProcessing season) >>
   try_except
     (let* all_players := get_all_players env season in
      for_each (valid_teams all_players) (save_roster season) >>
      set_locals (λ ids, ids ∪ list_to_set (PERSON_ID <$> all_players)))
     (λ e, print (MsgErrorInSeason season e)))%py.

Definition fetch_team_rosters_body (after_year current_year : Z)
    : py (gset Z * world) (gset Z) :=
  (set_locals (λ _, ∅) >>
   for_each (seqZ after_year (current_year + 1 - after_year)) process_season >>
   get_locals)%py.

(** [fetch_team_rosters(after_year, current_year)] run in world [w]:
    what it returns (or raises) and the world it leaves. *)
Definition fetch_team_rosters (after_year current_year : Z) (w : world)
    : outcome (gset Z) * world :=
  let '(r, s) := fetch_team_rosters_body after_year current_year (∅, w) in
  (r, s.2).
End rosters.

(** ** fetch_player_data.py *)

(** The three counters, the local variables of [fetch_player_data]. *)
Record counters : Type :=
  Counters { saved_count : Z; error_count : Z; skipped_count : Z }.

Definition incr_saved (c : counters) : counters :=
  Counters (saved_count c + 1) (error_count c) (skipped_count c).
Definition incr_error (c : counters) : counters :=
  Counters (saved_count c) (error_count c + 1) (skipped_count c).
Definition incr_skipped (c : counters) : counters :=
  Counters (saved_count c) (error_count c) (skipped_count c + 1).

(** The mask [career['TEAM_ABBREVIATION'] != 'TOT'] on one row. *)
Definition not_TOT (row : career_row) : bool :=
  match TEAM_ABBREVIATION row with
  | JStr s => negb (String.eqb s "TOT")
  | _ => true
  end.

(** [career[career['TEAM_ABBREVIATION'] != 'TOT']]. *)
Definition drop_TOT (career : list career_row) : list career_row :=
  filter (λ row, not_TOT row) career.

Section players.
Variable BASE_DATA_DIR : string.
Variable env : environment.

Definition p_file (p_id : Z) : string :=
  BASE_DATA_DIR +:+ "/players/" +:+ pretty p_id +:+ ".json".

(** The [try] block of the loop body. *)
Definition fetch_and_save (n idx p_id : Z) : py (counters * world) unit :=
  (let path := p_file p_id in
   let* career := get_career_stats env p_id in
   let career := drop_TOT career in
   to_json env path (CareerJson career) >>
   let* created := os_path_exists path in
   (if created then
      set_locals incr_saved >>
      if (idx mod 100 =? 0)%Z || (idx <=? 5)%Z
      then print (MsgProgress idx n p_id) else ret tt
    else
      set_locals incr_error >>
      print (MsgPlayerNotCreated p_id path)) >>
   time_sleep 700)%py.

(** Its [except Exception as e] block. *)
Definition count_error (p_id : Z) (e : exn) : py (counters * world) unit :=
  (set_locals incr_error >>
   let* c := get_locals in
   if (error_count c <=? 10)%Z then print (MsgErrorFetchingPlayer p_id e)
   else if (error_count c =? 11)%Z then print MsgSuppressing
   else ret tt)%py.

(** The body of [for idx, p_id in enumerate(player_ids, 1)]; [n] is
    [len(player_ids)]. *)
Definition save_player (n idx p_id : Z) : py (counters * world) unit :=
  (let* present := os_path_exists (p_file p_id) in
   if negb present then
     try_except (fetch_and_save n idx p_id) (count_error p_id)
   else set_locals incr_skipped)%py.

Definition fetch_player_data_body (player_ids : list Z)
    : py (counters * world) unit :=
  (let n := Z.of_nat (length player_ids) in
   print (MsgSavingPlayers n) >>
   set_locals (λ _, Counters 0 0 0) >>
   for_enumerate 1 player_ids (save_player n) >>
   let* c := get_locals in
   print (MsgComplete (saved_count c) (skipped_count c) (error_count c)))%py.

(** [fetch_player_data(player_ids)] run in world [w]; [player_ids] is the
    iteration order of the argument.  The function has no [return]: what it
    hands back is Python's [None], here [tt]. *)
Definition fetch_player_data (player_ids : list Z) (w : world)
    : outcome unit * world :=
  let '(r, s) := fetch_player_data_body player_ids (Counters 0 0 0, w) in
  (r, s.2).
End players.

(** ** generate_player_names.py *)

(** The equality class of a hashable value as a [dict] key: [True == 1 ==
    1.0] are one key, a float that is not a whole number is itself. *)
Inductive pykey : Type :=
| KNone
| KInt (n : Z)
| KFraction (negative : bool) (m : positive) (e : Z)
| KInfinity (negative : bool)
| KNan
| KStr (s : string).

Global Instance pykey_eq_dec : EqDecision pykey.
Proof. solve_decision. Defined.

(** [m * 2^e] with the mantissa made odd. *)
Fixpoint odd_mantissa (m : positive) (e : Z) : positive * Z :=
  match m with
  | xO m' => odd_mantissa m' (e + 1)
  | _ => (m, e)
  end.

Definition float_key (f : spec_float) : pykey :=
  match f with
  | S754_zero _ => KInt 0
  | S754_infinity s => KInfinity s
  | S754_nan => KNan
  | S754_finite s m e =>
      let '(m', e') := odd_mantissa m e in
      if (0 <=? e')%Z
      then KInt ((if s then -1 else 1) * (Z.pos m' * 2 ^ e'))
      else KFraction s m' e'
  end.

(** [hash(v)]: lists and dicts are unhashable. *)
Definition hash_key (v : json) : option pykey :=
  match v with
  | JNull => Some KNone
  | JBool b => Some (KInt (if b then 1 else 0))
  | JInt n => Some (KInt n)
  | JFloat f => Some (float_key f)
  | JStr s => Some (KStr s)
  | JArr _ | JObj _ => None
  end.

(** The dict [player_names], in insertion order. *)
Definition pydict : Type := list (json * json).

(** [key in d], for a key of class [k]. *)
Definition dict_contains (d : pydict) (k : pykey) : bool :=
  existsb (λ kv, bool_decide (hash_key kv.1 = Some k)) d.

(** [d[key]]. *)
Definition dict_lookup (d : pydict) (k : pykey) : option json :=
  snd <$> List.find (λ kv, bool_decide (hash_key kv.1 = Some k)) d.

(** The state of the script: the dict and the files it has reported. *)
Record index_state : Type :=
  IndexState { player_names : pydict; reported : list (string * exn) }.

Fixpoint characters (s : string) : list json :=
  match s with
  | EmptyString => []
  | String c rest => JStr (String c EmptyString) :: characters rest
  end.

(** What [for player in roster_data] iterates over: the items of a list,
    the keys of a dict, the characters of a string; anything else raises. *)
Definition iterate (roster_data : json) : py index_state (list json) :=
  match roster_data with
  | JArr items => ret items
  | JObj members => ret (JStr <$> unique (fst <$> members))
  | JStr s => ret (characters s)
  | _ => raise (Exception "object is not iterable")
  end.

(** The body of [for player in roster_data]. *)
Definition add_player (player : json) : py index_state unit :=
  match player with
  | JObj members =>
      let player_id := dict_get "PLAYER_ID" members in
      let player_name := dict_get "PLAYER" members in
      if truthy player_id && truthy player_name then
        match hash_key player_id with
        | None => raise (Exception "unhashable type")
        | Some k =>
            λ s, if dict_contains (player_names s) k then (Returned tt, s)
                 else (Returned tt,
                       IndexState (player_names s ++ [(player_id, player_name)])
                                  (reported s))
        end
      else ret tt
  | _ => raise (Exception "object has no attribute 'get'")
  end.

(** The body of [for team_file in team_files]: a file is its name and what
    [open] and [json.load] make of it. *)
Definition scan_team_file (team_file : string * (exn + json))
    : py index_state unit :=
  try_except
    (let* roster_data :=
       match team_file.2 with inl e => raise e | inr j => ret j end in
     let* players := iterate roster_data in
     for_each players add_player)%py
    (λ e s, (Returned tt,
             IndexState (player_names s) (reported s ++ [(team_file.1, e)]))).

(** The script: the state after the scan, or the exception that ended it. *)
Definition generate_player_names (team_files : list (string * (exn + json)))
    : outcome unit * index_state :=
  for_each team_files scan_team_file (IndexState [] []).

(** * Reading a run off its trace *)

(** What a run that took the world from [w] to [w'] added to the trace. *)
Definition events_since (w w' : world) : list event :=
  drop (length (trace w)) (trace w').

Definition is_external_call (e : event) : bool :=
  match e with
  | EvAllPlayers _ _ | EvTeamRoster _ _ _ | EvCareerStats _ _ => true
  | _ => false
  end.

Definition external_calls (evs : list event) : list event :=
  filter (λ e, is_external_call e) evs.

Definition is_listing (e : event) : bool :=
  match e with EvAllPlayers _ _ => true | _ => false end.

(** The listing calls with their answers, in order. *)
Definition listings (evs : list event) : list event :=
  filter (λ e, is_listing e) evs.

Definition listed_seasons (evs : list event) : list string :=
  omap (λ e, match e with EvAllPlayers season _ => Some season | _ => None end) evs.

(** The teams whose roster was asked for, in order. *)
Definition fetched_teams (evs : list event) : list Z :=
  omap (λ e, match e with EvTeamRoster t _ _ => Some t | _ => None end) evs.

Definition written_paths (evs : list event) : list string :=
  omap (λ e, match e with EvToJson path _ _ => Some path | _ => None end) evs.

(** The paths a run has looked at or written to. *)
Definition touched_paths (evs : list event) : list string :=
  omap (λ e, match e with
             | EvExists path _ | EvToJson path _ _ => Some path
             | _ => None
             end) evs.

(** The paths at which a write has put a file: the whole file, or what a
    write that raised has left behind. *)
Definition created_paths (evs : list event) : list string :=
  omap (λ e, match e with
             | EvToJson path _ (Written | WriteFailed _ (Some _)) => Some path
             | _ => None
             end) evs.

(** The career frames that came back, with their players, in order. *)
Definition fetched_careers (evs : list event) : list (Z * list career_row) :=
  omap (λ e, match e with
             | EvCareerStats p_id (inr rows) => Some (p_id, rows)
             | _ => None
             end) evs.

(** No character of the string is an underscore. *)
Fixpoint underscore_free (s : string) : Prop :=
  match s with
  | EmptyString => True
  | String c rest => c ≠ "_"%char ∧ underscore_free rest
  end.

(** No roster call raised and every write left its file. *)
Definition unit_succeeded (e : event) : Prop :=
  match e with
  | EvTeamRoster _ _ (inl _) => False
  | EvToJson _ _ o => o = Written
  | _ => True
  end.

(** A message, a listing call or a look at the store: no fetch of a unit,
    no write, no pause. *)
Definition quiet (e : event) : Prop :=
  match e with
  | EvPrint _ | EvAllPlayers _ _ | EvExists _ _ => True
  | _ => False
  end.

(** What a run sends to the provider or writes concerns a real team. *)
Definition concerns_team (BASE : string) (e : event) : Prop :=
  match e with
  | EvTeamRoster t _ _ => t ≠ 0%Z
  | EvToJson path _ _ | EvExists path _ =>
      ∃ t season, t ≠ 0%Z ∧ path = team_file BASE t season
  | _ => True
  end.

(** ** Pacing *)

(** Where a harvester stands towards the provider: nothing pending; a roster
    or career frame has arrived; the frame has been written without an
    exception and the pause for it is still to come. *)
Inductive pace : Type := Idle | Fetched | Owed.

(** One event under the pacing discipline: a frame that arrived is written
    next, a written frame is followed by the pause of [interval]
    milliseconds before anything else goes to the provider, and there is no
    pause at any other moment.  [None] is a breach. *)
Definition pace_step (interval : Z) (p : pace) (e : event) : option pace :=
  match e with
  | EvPrint _ | EvExists _ _ => Some p
  | EvAllPlayers _ _ => match p with Idle => Some Idle | _ => None end
  | EvTeamRoster _ _ r =>
      match p, r with
      | Idle, inl _ => Some Idle
      | Idle, inr _ => Some Fetched
      | _, _ => None
      end
  | EvCareerStats _ r =>
      match p, r with
      | Idle, inl _ => Some Idle
      | Idle, inr _ => Some Fetched
      | _, _ => None
      end
  | EvToJson _ _ o =>
      match p, o with
      | Fetched, WriteFailed _ _ => Some Idle
      | Fetched, _ => Some Owed
      | _, _ => None
      end
  | EvSleep ms =>
      match p with
      | Owed => if (ms =? interval)%Z then Some Idle else None
      | _ => None
      end
  end.

Fixpoint paced (interval : Z) (p : pace) (evs : list event) : option pace :=
  match evs with
  | [] => Some p
  | e :: rest =>
      match pace_step interval p e with
      | Some p' => paced interval p' rest
      | None => None
      end
  end.

Definition answered {A} (r : exn + A) : bool :=
  match r with inr _ => true | inl _ => false end.

(** The discipline on every external call: once a call to the provider has
    returned, no further call goes out before a pause of at least
    [interval] milliseconds.  [owed] says that such a pause is due. *)
Fixpoint pause_after_every_fetch (interval : Z) (owed : bool)
    (evs : list event) : bool :=
  match evs with
  | [] => true
  | EvAllPlayers _ r :: rest =>
      negb owed && pause_after_every_fetch interval (answered r) rest
  | EvTeamRoster _ _ r :: rest =>
      negb owed && pause_after_every_fetch interval (answered r) rest
  | EvCareerStats _ r :: rest =>
      negb owed && pause_after_every_fetch interval (answered r) rest
  | EvSleep ms :: rest =>
      pause_after_every_fetch interval (owed && (ms <? interval)%Z) rest
  | _ :: rest => pause_after_every_fetch interval owed rest
  end.

(** The store a failed write leaves. *)
Definition after_failed_write (path : string) (left_behind : option string)
    (st : gmap string file) : gmap string file :=
  match left_behind with
  | Some bytes => <[path := RawFile bytes]> st
  | None => st
  end.

(** ** The runs of the roster harvester *)

(** One team of one season: the store before, the store after, the events. *)
Inductive roster_unit (path : string) (team_id : Z) (season : string)
    (st : gmap string file) : gmap string file → list event → Prop :=
| roster_skipped :
    is_Some (st !! path) →
    roster_unit path team_id season st st [EvExists path true]
| roster_fetch_raised e :
    st !! path = None →
    roster_unit path team_id season st st
      [EvExists path false; EvPrint (MsgFetchingRoster team_id season);
       EvTeamRoster team_id season (inl e);
       EvPrint (MsgErrorSavingTeam team_id e)]
| roster_saved r :
    st !! path = None →
    roster_unit path team_id season st (<[path := RosterJson r]> st)
      [EvExists path false; EvPrint (MsgFetchingRoster team_id season);
       EvTeamRoster team_id season (inr r);
       EvToJson path (RosterJson r) Written;
       EvExists path true; EvPrint (MsgRosterSaved path); EvSleep 800]
| roster_not_created r :
    st !! path = None →
    roster_unit path team_id season st st
      [EvExists path false; EvPrint (MsgFetchingRoster team_id season);
       EvTeamRoster team_id season (inr r);
       EvToJson path (RosterJson r) NotCreated;
       EvExists path false; EvPrint (MsgRosterNotCreated path); EvSleep 800]
| roster_write_raised r e left_behind :
    st !! path = None →
    roster_unit path team_id season st (after_failed_write path left_behind st)
      [EvExists path false; EvPrint (MsgFetchingRoster team_id season);
       EvTeamRoster team_id season (inr r);
       EvToJson path (RosterJson r) (WriteFailed e left_behind);
       EvPrint (MsgErrorSavingTeam team_id e)].

Inductive teams_run (BASE season : string)
    : list Z → gmap string file → gmap string file → list event → Prop :=
| teams_done st : teams_run BASE season [] st st []
| teams_next t ts st st1 st2 evs1 evs2 :
    roster_unit (team_file BASE t season) t season st st1 evs1 →
    teams_run BASE season ts st1 st2 evs2 →
    teams_run BASE season (t :: ts) st st2 (evs1 ++ evs2).

Inductive season_run (BASE : string) (year : Z) (ids : gset Z)
    (st : gmap string file) : gset Z → gmap string file → list event → Prop :=
| season_listing_raised e :
    season_run BASE year ids st ids st
      [EvPrint (MsgProcessing (season_str year));
       EvAllPlayers (season_str year) (inl e);
       EvPrint (MsgErrorInSeason (season_str year) e)]
| season_listed rows st' evs :
    teams_run BASE (season_str year) (valid_teams rows) st st' evs →
    season_run BASE year ids st
      (ids ∪ list_to_set (PERSON_ID <$> rows)) st'
      (EvPrint (MsgProcessing (season_str year))
         :: EvAllPlayers (season_str year) (inr rows) :: evs).

Inductive years_run (BASE : string)
    : list Z → gset Z → gmap string file →
      gset Z → gmap string file → list event → Prop :=
| years_done ids st : years_run BASE [] ids st ids st []
| years_next y ys ids ids1 ids2 st st1 st2 evs1 evs2 :
    season_run BASE y ids st ids1 st1 evs1 →
    years_run BASE ys ids1 st1 ids2 st2 evs2 →
    years_run BASE (y :: ys) ids st ids2 st2 (evs1 ++ evs2).

(** ** The runs of the player harvester *)

(** The progress line of a saved player, when there is one. *)
Definition progress_report (idx n p_id : Z) : list event :=
  if (idx mod 100 =? 0)%Z || (idx <=? 5)%Z
  then [EvPrint (MsgProgress idx n p_id)] else [].

(** What the handler prints once [error_count] has reached [errors]. *)
Definition error_report (p_id : Z) (e : exn) (errors : Z) : list event :=
  if (errors <=? 10)%Z then [EvPrint (MsgErrorFetchingPlayer p_id e)]
  else if (errors =? 11)%Z then [EvPrint MsgSuppressing]
  else [].

(** One player: counters and store before, counters and store after, the
    events. *)
Inductive player_unit (path : string) (n idx p_id : Z)
    (c : counters) (st : gmap string file)
    : counters → gmap string file → list event → Prop :=
| player_skipped :
    is_Some (st !! path) →
    player_unit path n idx p_id c st (incr_skipped c) st [EvExists path true]
| player_fetch_raised e :
    st !! path = None →
    player_unit path n idx p_id c st (incr_error c) st
      (EvExists path false :: EvCareerStats p_id (inl e)
         :: error_report p_id e (error_count c + 1))
| player_saved rows :
    st !! path = None →
    player_unit path n idx p_id c st
      (incr_saved c) (<[path := CareerJson (drop_TOT rows)]> st)
      ([EvExists path false; EvCareerStats p_id (inr rows);
        EvToJson path (CareerJson (drop_TOT rows)) Written;
        EvExists path true]
         ++ progress_report idx n p_id ++ [EvSleep 700])
| player_not_created rows :
    st !! path = None →
    player_unit path n idx p_id c st (incr_error c) st
      [EvExists path false; EvCareerStats p_id (inr rows);
       EvToJson path (CareerJson (drop_TOT rows)) NotCreated;
       EvExists path false; EvPrint (MsgPlayerNotCreated p_id path);
       EvSleep 700]
| player_write_raised rows e left_behind :
    st !! path = None →
    player_unit path n idx p_id c st
      (incr_error c) (after_failed_write path left_behind st)
      (EvExists path false :: EvCareerStats p_id (inr rows)
         :: EvToJson path (CareerJson (drop_TOT rows)) (WriteFailed e left_behind)
         :: error_report p_id e (error_count c + 1)).

Inductive players_run (BASE : string) (n : Z)
    : Z → list Z → counters → gmap string file →
      counters → gmap string file → list event → Prop :=
| players_done idx c st : players_run BASE n idx [] c st c st []
| players_next idx p ps c c1 c2 st st1 st2 evs1 evs2 :
    player_unit (p_file BASE p) n idx p c st c1 st1 evs1 →
    players_run BASE n (idx + 1) ps c1 st1 c2 st2 evs2 →
    players_run BASE n idx (p :: ps) c st c2 st2 (evs1 ++ evs2).

(** How many events of a kind a run has left. *)
Definition tally (kind : event → bool) (evs : list event) : Z :=
  Z.of_nat (length (filter (λ e, kind e) evs)).

(** A career frame arrived and its file is there. *)
Definition is_saved (e : event) : bool :=
  match e with EvToJson _ _ Written => true | _ => false end.

(** A unit went wrong: the provider raised, the write raised, or the file
    is not there after the write. *)
Definition is_error (e : event) : bool :=
  match e with
  | EvCareerStats _ (inl _) => true
  | EvToJson _ _ (NotCreated | WriteFailed _ _) => true
  | _ => false
  end.

Definition found_present (e : event) : bool :=
  match e with EvExists _ true => true | _ => false end.

(** The files found in place are those just saved and those skipped. *)
Definition tally_skipped (evs : list event) : Z :=
  (tally found_present evs - tally is_saved evs)%Z.

(** The state in which [fetch_player_data] reaches unit [k] (from 1). *)
Definition state_before_unit (BASE : string) (env : environment)
    (player_ids : list Z) (k : nat) (w : world) : counters * world :=
  ((print (MsgSavingPlayers (Z.of_nat (length player_ids))) >>
    set_locals (λ _, Counters 0 0 0) >>
    for_enumerate 1 (take (k - 1) player_ids)
      (save_player BASE env (Z.of_nat (length player_ids))))%py
     (Counters 0 0 0, w)).2.

(** ** The entries the index builder reads *)

Definition entry_id (player : json) : json :=
  match player with JObj members => dict_get "PLAYER_ID" members | _ => JNull end.

Definition entry_name (player : json) : json :=
  match player with JObj members => dict_get "PLAYER" members | _ => JNull end.

(** Both the identifier and the name are there and truthy. *)
Definition usable (player : json) : bool :=
  truthy (entry_id player) && truthy (entry_name player).

(** The scan gets past the entry without an exception. *)
Definition scannable (player : json) : bool :=
  match player with
  | JObj _ =>
      if usable player then bool_decide (is_Some (hash_key (entry_id player)))
      else true
  | _ => false
  end.

(** The entries of a list up to the first one that raises. *)
Fixpoint reached_items (items : list json) : list json :=
  match items with
  | [] => []
  | player :: rest => if scannable player then player :: reached_items rest else []
  end.

(** The entries of a file that the scan reaches. *)
Definition reached (loaded : exn + json) : list json :=
  match loaded with
  | inr (JArr items) => reached_items items
  | _ => []
  end.

Definition scanned (team_files : list (string * (exn + json))) : list json :=
  team_files ≫= (λ team_file, reached team_file.2).

(** The entry is usable and its identifier is the key [k]. *)
Definition names (k : pykey) (player : json) : bool :=
  usable player && bool_decide (hash_key (entry_id player) = Some k).

(** The name of the first usable entry for [k]. *)
Definition first_usable_name (k : pykey) (entries : list json) : option json :=
  entry_name <$> List.find (names k) entries.

(** All entries of all files that load as a list, in scan order. *)
Definition listed (team_files : list (string * (exn + json))) : list json :=
  team_files ≫= (λ team_file,
    match team_file.2 with inr (JArr items) => items | _ => [] end).

(** The name of the first entry for [k], whatever the name is. *)
Definition first_listed_name (k : pykey) (entries : list json) : option json :=
  entry_name <$>
    List.find (λ player, bool_decide (hash_key (entry_id player) = Some k)) entries.

(** What the loop body does to the dict for an entry it gets past. *)
Definition remember (d : pydict) (player : json) : pydict :=
  if usable player then
    match hash_key (entry_id player) with
    | Some k =>
        if dict_contains d k then d
        else d ++ [(entry_id player, entry_name player)]
    | None => d
    end
  else d.

(** ** A provider for the examples *)

Definition demo_listing : list player_row :=
  [PlayerRow 1 5; PlayerRow 2 0; PlayerRow 3 5; PlayerRow 4 6].

Definition demo_career : list career_row :=
  [CareerRow (JStr "ATL") [("GP", JInt 30)];
   CareerRow (JStr "TOT") [("GP", JInt 70)];
   CareerRow (JStr "BOS") [("GP", JInt 40)]].

(** It lists the same four players every season, has an empty roster for
    every team, raises on the career of player 2, and every write works. *)
Definition demo_provider : environment :=
  Environment
    (λ _ _, inr demo_listing)
    (λ _ _ _, inr [])
    (λ _ p_id, if bool_decide (p_id = 2%Z) then inl (Exception "timeout")
               else inr demo_career)
    (λ _ _ _, Written).

Definition fresh_world : world := World ∅ [].

Definition after_first_run : world :=
  (fetch_team_rosters "/data" demo_provider 2020 2021 fresh_world).2.

Definition after_second_run : world :=
  (fetch_team_rosters "/data" demo_provider 2020 2021 after_first_run).2.

(** Two roster files, both with an entry for player 7. *)
Definition roster_entry (p_id : Z) (name : string) : json :=
  JObj [("TeamID", JInt 5); ("PLAYER", JStr name); ("PLAYER_ID", JInt p_id)].

Definition two_records (first second : string)
    : list (string * (exn + json)) :=
  [("5_2020-21.json", inr (JArr [roster_entry 7 first]));
   ("5_2021-22.json", inr (JArr [roster_entry 7 second]))].


(** Every listing call among [evs], the events that follow the trace
    [before], carries what the provider answers to it at that moment. *)
Definition listings_asked (env : environment) (before evs : list event) : Prop :=
  ∀ i season r,
    evs !! i = Some (EvAllPlayers season r) →
    r = CommonAllPlayers env (before ++ take i evs) season.

(** A provider that lists the four players for 2020-21, fails to list any
    other season, and fails every roster call. *)
Definition rosterless_provider : environment :=
  Environment
    (λ _ season, if bool_decide (season = "2020-21") then inr demo_listing
                 else inl (Exception "no listing"))
    (λ _ _ _, inl (Exception "no roster"))
    (λ _ _, inr demo_career)
    (λ _ _ _, Written).
(** * The rest of the scripts *)

(** ** crawler.py *)

Section crawler.
Variable BASE_DATA_DIR : string.
Variable env : environment.

(** The order in which Python goes through a set of integers. *)
Variable iteration : gset Z → list Z.

(** [crawl_nba_network(after_year, current_year)]: the rosters first, then
    the careers of the players found.  Both modules derive the same
    [BASE_DATA_DIR] from the directory of the scripts. *)
Definition crawl_nba_network (after_year current_year : Z) (w : world)
    : outcome unit * world :=
  match fetch_team_rosters BASE_DATA_DIR env after_year current_year w with
  | (Returned player_ids_to_fetch, w1) =>
      fetch_player_data BASE_DATA_DIR env (iteration player_ids_to_fetch) w1
  | (Raised e, w1) => (Raised e, w1)
  end.
End crawler.

(** ** Words for the further properties *)

(** The character does not occur in the string. *)
Fixpoint char_free (c : ascii) (s : string) : Prop :=
  match s with
  | EmptyString => True
  | String c' rest => c' ≠ c ∧ char_free c rest
  end.

(** The last two decimal digits of a number. *)
Definition two_digits (n : Z) : string :=
  String (pretty_N_char (Z.to_N n / 10 mod 10))
    (String (pretty_N_char (Z.to_N n mod 10)) EmptyString).

(** The players whose career was asked for, in order. *)
Definition fetched_players (evs : list event) : list Z :=
  omap (λ e, match e with EvCareerStats p_id _ => Some p_id | _ => None end) evs.

(** The line with the exception of a player that went wrong. *)
Definition is_detailed_report (e : event) : bool :=
  match e with EvPrint (MsgErrorFetchingPlayer _ _) => true | _ => false end.

(** The line that says that further such lines are held back. *)
Definition is_suppression_notice (e : event) : bool :=
  match e with EvPrint MsgSuppressing => true | _ => false end.

(** The player identifier is in a listing that came back. *)
Definition listed_player (evs : list event) (p_id : Z) : Prop :=
  ∃ season rows,
    EvAllPlayers season (inr rows) ∈ evs ∧ p_id ∈ PERSON_ID <$> rows.

(** What an event of the unit of a player may be: a look at the file of the
    player, or anything but a look at a file or a listing call. *)
Definition of_player_unit (path : string) (e : event) : Prop :=
  match e with
  | EvExists path' _ => path' = path
  | EvAllPlayers _ _ => False
  | _ => True
  end.

(** * Properties *)

Ltac py_unfold :=
  unfold bind, ret, raise, try_except, print, time_sleep, emit, os_path_exists,
    get_all_players, get_team_roster, get_career_stats, answer, to_json,
    get_locals, set_locals, log; simpl.

Ltac close_trace := rewrite <- ?app_assoc; simpl; reflexivity.

Lemma events_since_app (w : world) st evs :
  events_since w (World st (trace w ++ evs)) = evs.
Proof. unfold events_since. simpl. by rewrite drop_app_length. Qed.

(** ** The roster harvester does what its runs say *)

Lemma save_roster_unit BASE env season team_id (ids : gset Z) (w : world) :
  ∃ st' evs,
    save_roster BASE env season team_id (ids, w)
      = (Returned tt, (ids, World st' (trace w ++ evs))) ∧
    roster_unit (team_file BASE team_id season) team_id season (store w) st' evs.
Proof.
  unfold save_roster. set (path := team_file BASE team_id season).
  py_unfold.
  destruct (store w !! path) as [f|] eqn:Hpath.
  { rewrite bool_decide_eq_true_2 by eauto. simpl.
    eexists _, _. split; [done |]. constructor. eauto. }
  rewrite bool_decide_eq_false_2 by (intros [? ?]; done). simpl.
  destruct (CommonTeamRoster env _ team_id season) as [e|r] eqn:Hfetch; simpl.
  { eexists _, _. split; [by rewrite <- !app_assoc |]. by constructor. }
  destruct (to_json_outcome env _ path (RosterJson r)) as [| |e [bytes|]] eqn:Hw;
    simpl.
  - rewrite lookup_insert_eq, bool_decide_eq_true_2 by eauto. simpl.
    eexists _, _. split; [by rewrite <- !app_assoc |]. by constructor.
  - rewrite Hpath, bool_decide_eq_false_2 by (intros [? ?]; done). simpl.
    eexists _, _. split; [by rewrite <- !app_assoc |]. by constructor.
  - eexists _, _. split; [by rewrite <- !app_assoc |].
    by apply (roster_write_raised _ _ _ _ r e (Some bytes)).
  - eexists _, _. split; [by rewrite <- !app_assoc |].
    by apply (roster_write_raised _ _ _ _ r e None).
Qed.

Lemma save_rosters_run BASE env season ts (ids : gset Z) (w : world) :
  ∃ st' evs,
    for_each ts (save_roster BASE env season) (ids, w)
      = (Returned tt, (ids, World st' (trace w ++ evs))) ∧
    teams_run BASE season ts (store w) st' evs.
Proof.
  revert w. induction ts as [|t ts IH]; intros w; simpl.
  - exists (store w), []. rewrite app_nil_r. destruct w. split; [done | constructor].
  - destruct (save_roster_unit BASE env season t ids w) as (st1 & evs1 & H1 & U1).
    destruct (IH (World st1 (trace w ++ evs1))) as (st2 & evs2 & H2 & U2).
    exists st2, (evs1 ++ evs2). unfold bind. rewrite H1, H2. simpl.
    rewrite app_assoc. split; [done | by econstructor].
Qed.

Lemma process_season_run BASE env year (ids : gset Z) (w : world) :
  ∃ ids' st' evs,
    process_season BASE env year (ids, w)
      = (Returned tt, (ids', World st' (trace w ++ evs))) ∧
    season_run BASE year ids (store w) ids' st' evs.
Proof.
  unfold process_season. set (season := season_str year).
  unfold bind at 1, print, emit, log, try_except. simpl.
  unfold bind at 1, get_all_players, answer, log. simpl.
  destruct (CommonAllPlayers env _ season) as [e|rows] eqn:Hlist; simpl.
  { eexists _, _, _. split; [by rewrite <- !app_assoc |]. constructor. }
  unfold bind at 1.
  destruct (save_rosters_run BASE env season (valid_teams rows) ids
              (World (store w)
                 ((trace w ++ [EvPrint (MsgProcessing season)])
                    ++ [EvAllPlayers season (inr rows)])))
    as (st' & evs & H & T).
  rewrite H. unfold set_locals. simpl.
  eexists _, _, _. split; [by rewrite <- !app_assoc |]. by constructor.
Qed.

Lemma process_seasons_run BASE env ys (ids : gset Z) (w : world) :
  ∃ ids' st' evs,
    for_each ys (process_season BASE env) (ids, w)
      = (Returned tt, (ids', World st' (trace w ++ evs))) ∧
    years_run BASE ys ids (store w) ids' st' evs.
Proof.
  revert ids w. induction ys as [|y ys IH]; intros ids w; simpl.
  - exists ids, (store w), []. rewrite app_nil_r. destruct w.
    split; [done | constructor].
  - destruct (process_season_run BASE env y ids w) as (ids1 & st1 & evs1 & H1 & S1).
    destruct (IH ids1 (World st1 (trace w ++ evs1))) as (ids2 & st2 & evs2 & H2 & S2).
    exists ids2, st2, (evs1 ++ evs2). unfold bind. rewrite H1, H2. simpl.
    rewrite app_assoc. split; [done | by econstructor].
Qed.

Lemma fetch_team_rosters_run BASE env after_year current_year (w : world) :
  ∃ ids st' evs,
    fetch_team_rosters BASE env after_year current_year w
      = (Returned ids, World st' (trace w ++ evs)) ∧
    years_run BASE (seqZ after_year (current_year + 1 - after_year))
      ∅ (store w) ids st' evs.
Proof.
  unfold fetch_team_rosters, fetch_team_rosters_body, bind, set_locals. simpl.
  destruct (process_seasons_run BASE env
              (seqZ after_year (current_year + 1 - after_year)) ∅ w)
    as (ids & st' & evs & H & Y).
  rewrite H. simpl. by exists ids, st', evs.
Qed.

(** ** The store only grows *)

Lemma after_failed_write_grows path left_behind (st : gmap string file) :
  st !! path = None → st ⊆ after_failed_write path left_behind st.
Proof.
  intros Hnone. destruct left_behind as [bytes|]; simpl; [|done].
  by apply insert_subseteq.
Qed.

Lemma roster_unit_grows path t season st st' evs :
  roster_unit path t season st st' evs → st ⊆ st'.
Proof.
  destruct 1; try done.
  - by apply insert_subseteq.
  - by apply after_failed_write_grows.
Qed.

Lemma teams_run_grows BASE season ts st st' evs :
  teams_run BASE season ts st st' evs → st ⊆ st'.
Proof.
  induction 1 as [|t ts st st1 st2 evs1 evs2 U _ IH]; [done |].
  etrans; [by eapply roster_unit_grows | done].
Qed.

Lemma season_run_grows BASE y ids st ids' st' evs :
  season_run BASE y ids st ids' st' evs → st ⊆ st'.
Proof. destruct 1; [done | by eapply teams_run_grows]. Qed.

Lemma years_run_grows BASE ys ids st ids' st' evs :
  years_run BASE ys ids st ids' st' evs → st ⊆ st'.
Proof.
  induction 1 as [|y ys ids ids1 ids2 st st1 st2 evs1 evs2 S _ IH]; [done |].
  etrans; [by eapply season_run_grows | done].
Qed.

(** ** The teams of a season *)

Lemma unique_from_elem {A} `{EqDecision A} (seen xs : list A) (x : A) :
  x ∈ unique_from seen xs ↔ x ∈ xs ∧ x ∉ seen.
Proof.
  revert seen. induction xs as [|y xs IH]; intros seen; simpl.
  - split; [by intros ?%elem_of_nil | by intros [?%elem_of_nil _]].
  - case_bool_decide as Hy.
    + rewrite IH, elem_of_cons. split; [naive_solver |].
      intros [[->|Hx] Hseen]; [done | by split].
    + rewrite !elem_of_cons, IH, elem_of_cons. split.
      * intros [->|[Hx Hseen]]; [by split; [left |] |].
        split; [by right | naive_solver].
      * intros [[->|Hx] Hseen]; [by left |].
        destruct (decide (x = y)) as [->|Hne]; [by left |].
        right. split; [done |]. by intros [?|?].
Qed.

Lemma unique_from_NoDup {A} `{EqDecision A} (seen xs : list A) :
  NoDup (unique_from seen xs).
Proof.
  revert seen. induction xs as [|y xs IH]; intros seen; simpl.
  - constructor.
  - case_bool_decide as Hy; [apply IH |].
    constructor; [| apply IH].
    rewrite unique_from_elem, elem_of_cons. naive_solver.
Qed.

Lemma valid_teams_elem rows (t : Z) :
  t ∈ valid_teams rows ↔ t ≠ 0%Z ∧ ∃ row, row ∈ rows ∧ TEAM_ID row = t.
Proof.
  unfold valid_teams, unique. rewrite unique_from_elem, list_elem_of_fmap.
  split.
  - intros [(row & -> & [Hrow Hin]%list_elem_of_filter) _]. eauto.
  - intros [Hne (row & Hin & <-)]. split; [| by intros ?%elem_of_nil].
    exists row. split; [done |]. by apply list_elem_of_filter.
Qed.

Lemma teams_run_fetched BASE season ts st st' evs :
  teams_run BASE season ts st st' evs → fetched_teams evs `sublist_of` ts.
Proof.
  induction 1 as [|t ts st st1 st2 evs1 evs2 U _ IH]; [done |].
  unfold fetched_teams in *. rewrite omap_app.
  destruct U; simpl; first [by apply sublist_cons | by apply sublist_skip].
Qed.

Lemma roster_unit_concerns BASE t season st st' evs :
  t ≠ 0%Z →
  roster_unit (team_file BASE t season) t season st st' evs →
  Forall (concerns_team BASE) evs.
Proof.
  intros Ht U. destruct U; repeat constructor; simpl; eauto.
Qed.

Lemma teams_run_concerns BASE season ts st st' evs :
  Forall (λ t, t ≠ 0%Z) ts →
  teams_run BASE season ts st st' evs → Forall (concerns_team BASE) evs.
Proof.
  intros Hts T. induction T as [|t ts st st1 st2 evs1 evs2 U _ IH]; [constructor |].
  apply Forall_cons in Hts as [Ht Hts]. apply Forall_app. split.
  - by eapply roster_unit_concerns.
  - by apply IH.
Qed.

Lemma season_run_concerns BASE y ids st ids' st' evs :
  season_run BASE y ids st ids' st' evs → Forall (concerns_team BASE) evs.
Proof.
  destruct 1 as [e|rows st' evs T]; [by repeat constructor |].
  do 2 (constructor; [done |]). eapply teams_run_concerns; [| done].
  apply Forall_forall. by intros t [Ht _]%valid_teams_elem.
Qed.

Lemma years_run_concerns BASE ys ids st ids' st' evs :
  years_run BASE ys ids st ids' st' evs → Forall (concerns_team BASE) evs.
Proof.
  induction 1 as [|y ys ids ids1 ids2 st st1 st2 evs1 evs2 S _ IH]; [constructor |].
  apply Forall_app. split; [by eapply season_run_concerns | done].
Qed.

(** ** Listing calls and the identifier set *)

Lemma roster_unit_quiet_listing path t season st st' evs :
  roster_unit path t season st st' evs →
  listings evs = [] ∧ listed_seasons evs = [].
Proof. by destruct 1. Qed.

Lemma teams_run_no_listing BASE season ts st st' evs :
  teams_run BASE season ts st st' evs →
  listings evs = [] ∧ listed_seasons evs = [].
Proof.
  induction 1 as [|t ts st st1 st2 evs1 evs2 U _ [IH1 IH2]]; [done |].
  apply roster_unit_quiet_listing in U as [U1 U2].
  unfold listings, listed_seasons in *.
  by rewrite filter_app, omap_app, U1, U2, IH1, IH2.
Qed.

Lemma listings_elem season r evs :
  EvAllPlayers season r ∈ evs ↔ EvAllPlayers season r ∈ listings evs.
Proof. unfold listings. rewrite list_elem_of_filter. naive_solver. Qed.

Lemma season_run_ids BASE y ids st ids' st' evs (p : Z) :
  season_run BASE y ids st ids' st' evs →
  p ∈ ids' ↔
    p ∈ ids ∨ ∃ season rows,
      EvAllPlayers season (inr rows) ∈ evs ∧ p ∈ PERSON_ID <$> rows.
Proof.
  destruct 1 as [e|rows st' evs T].
  - split; [by left |]. intros [?|(season & rows & Hin & _)]; [done |].
    rewrite !elem_of_cons in Hin.
    destruct Hin as [?|[?|[?|?%elem_of_nil]]]; done.
  - rewrite elem_of_union, elem_of_list_to_set. split.
    + intros [?|Hp]; [by left |]. right. exists (season_str y), rows.
      split; [| done]. right. left.
    + intros [?|(season & rows' & Hin & Hp)]; [by left |]. right.
      apply listings_elem in Hin. unfold listings in Hin. simpl in Hin.
      apply teams_run_no_listing in T as [T _]. unfold listings in T.
      rewrite filter_cons_False, filter_cons_True, T in Hin by (simpl; tauto).
      apply list_elem_of_singleton in Hin. by simplify_eq.
Qed.

Lemma years_run_ids BASE ys ids st ids' st' evs (p : Z) :
  years_run BASE ys ids st ids' st' evs →
  p ∈ ids' ↔
    p ∈ ids ∨ ∃ season rows,
      EvAllPlayers season (inr rows) ∈ evs ∧ p ∈ PERSON_ID <$> rows.
Proof.
  induction 1 as [|y ys ids ids1 ids2 st st1 st2 evs1 evs2 S _ IH].
  - split; [by left |]. intros [?|(? & ? & ?%elem_of_nil & _)]; done.
  - rewrite IH, (season_run_ids _ _ _ _ _ _ _ _ S). setoid_rewrite elem_of_app.
    naive_solver.
Qed.

Lemma years_run_listed BASE ys ids st ids' st' evs :
  years_run BASE ys ids st ids' st' evs →
  listed_seasons evs = season_str <$> ys.
Proof.
  induction 1 as [|y ys ids ids1 ids2 st st1 st2 evs1 evs2 S _ IH]; [done |].
  unfold listed_seasons in *. rewrite omap_app, IH. simpl. f_equal.
  destruct S as [e|rows st' evs T]; [done |].
  apply teams_run_no_listing in T as [_ T]. unfold listed_seasons in T.
  simpl. f_equal.
  change (listed_seasons evs ++ (season_str <$> ys) = season_str <$> ys).
  unfold listed_seasons. by rewrite T.
Qed.

(** ** A second run *)

Lemma teams_run_all_stored BASE season ts st st' evs :
  teams_run BASE season ts st st' evs →
  Forall unit_succeeded evs →
  ∀ t, t ∈ ts → is_Some (st' !! team_file BASE t season).
Proof.
  induction 1 as [|t ts st st1 st2 evs1 evs2 U T IH]; intros Hok t' Ht'.
  { by apply elem_of_nil in Ht'. }
  apply Forall_app in Hok as [Hok1 Hok2].
  apply elem_of_cons in Ht' as [->|Ht']; [| by apply IH].
  eapply lookup_weaken_is_Some; [| by eapply teams_run_grows].
  destruct U as [Hin|e Hout|r Hout|r Hout|r e lb Hout]; [done | | | |].
  - by repeat (apply Forall_cons in Hok1 as [? Hok1]).
  - by rewrite lookup_insert_eq.
  - by repeat (apply Forall_cons in Hok1 as [? Hok1]).
  - by repeat (apply Forall_cons in Hok1 as [? Hok1]).
Qed.

Lemma years_run_all_stored BASE ys ids st ids' st' evs :
  years_run BASE ys ids st ids' st' evs →
  Forall unit_succeeded evs →
  ∀ season rows, EvAllPlayers season (inr rows) ∈ evs →
  ∀ t, t ∈ valid_teams rows → is_Some (st' !! team_file BASE t season).
Proof.
  induction 1 as [|y ys ids ids1 ids2 st st1 st2 evs1 evs2 S Y IH];
    intros Hok season rows Hin t Ht.
  { by apply elem_of_nil in Hin. }
  apply Forall_app in Hok as [Hok1 Hok2].
  apply elem_of_app in Hin as [Hin|Hin]; [| by eapply IH].
  eapply lookup_weaken_is_Some; [| by eapply years_run_grows].
  destruct S as [e|rows' st' evs T].
  - rewrite !elem_of_cons in Hin.
    destruct Hin as [?|[?|[?|?%elem_of_nil]]]; done.
  - assert (season = season_str y ∧ rows = rows') as [-> ->].
    { apply listings_elem in Hin. unfold listings in Hin.
      pose proof (teams_run_no_listing _ _ _ _ _ _ T) as [HT _].
      unfold listings in HT.
      rewrite filter_cons_False, filter_cons_True, HT in Hin by (simpl; tauto).
      apply list_elem_of_singleton in Hin. by simplify_eq. }
    apply Forall_cons in Hok1 as [_ Hok1]. apply Forall_cons in Hok1 as [_ Hok1].
    by eapply teams_run_all_stored.
Qed.

Lemma teams_run_all_present BASE season ts st st' evs :
  teams_run BASE season ts st st' evs →
  (∀ t, t ∈ ts → is_Some (st !! team_file BASE t season)) →
  st' = st ∧ Forall quiet evs.
Proof.
  induction 1 as [|t ts st st1 st2 evs1 evs2 U T IH]; intros Hall; [done |].
  assert (is_Some (st !! team_file BASE t season)) as [f Hf] by (apply Hall; left).
  destruct U as [Hin|e Hout|r Hout|r Hout|r e lb Hout]; try congruence.
  destruct IH as [-> Hq]; [intros; apply Hall; by right |].
  split; [done |]. by constructor.
Qed.

Lemma years_run_all_present BASE ys ids st ids' st' evs :
  years_run BASE ys ids st ids' st' evs →
  (∀ season rows, EvAllPlayers season (inr rows) ∈ evs →
     ∀ t, t ∈ valid_teams rows → is_Some (st !! team_file BASE t season)) →
  st' = st ∧ Forall quiet evs.
Proof.
  induction 1 as [|y ys ids ids1 ids2 st st1 st2 evs1 evs2 S Y IH];
    intros Hall; [done |].
  assert (st1 = st ∧ Forall quiet evs1) as [-> Hq1].
  { destruct S as [e|rows st' evs T]; [by repeat constructor |].
    destruct (teams_run_all_present _ _ _ _ _ _ T) as [-> Hq].
    - intros t Ht. eapply Hall; [| done]. apply elem_of_app. left. right. left.
    - split; [done |]. by repeat constructor. }
  destruct IH as [-> Hq2].
  { intros season rows Hin. apply Hall. apply elem_of_app. by right. }
  split; [done |]. by apply Forall_app.
Qed.

Lemma quiet_nothing_fetched evs :
  Forall quiet evs →
  fetched_teams evs = [] ∧ written_paths evs = [] ∧
  external_calls evs = listings evs.
Proof.
  induction 1 as [|e evs He _ (IH1 & IH2 & IH3)]; [done |].
  unfold fetched_teams, written_paths, external_calls, listings in *.
  destruct e; simpl in He; try done;
    (split; [exact IH1 | split; [exact IH2 |]]);
    rewrite ?filter_cons_True, ?filter_cons_False by (simpl; tauto);
    by rewrite IH3.
Qed.

(** ** Pacing of the roster harvester *)

Lemma paced_app interval p evs1 evs2 p' :
  paced interval p evs1 = Some p' →
  paced interval p (evs1 ++ evs2) = paced interval p' evs2.
Proof.
  revert p. induction evs1 as [|e evs1 IH]; intros p; simpl.
  - by intros [= ->].
  - destruct (pace_step interval p e); [apply IH | done].
Qed.

Lemma roster_unit_paced path t season st st' evs :
  roster_unit path t season st st' evs → paced 800 Idle evs = Some Idle.
Proof. by destruct 1. Qed.

Lemma teams_run_paced BASE season ts st st' evs :
  teams_run BASE season ts st st' evs → paced 800 Idle evs = Some Idle.
Proof.
  induction 1 as [|t ts st st1 st2 evs1 evs2 U _ IH]; [done |].
  by rewrite (paced_app _ _ _ _ _ (roster_unit_paced _ _ _ _ _ _ U)).
Qed.

Lemma years_run_paced BASE ys ids st ids' st' evs :
  years_run BASE ys ids st ids' st' evs → paced 800 Idle evs = Some Idle.
Proof.
  induction 1 as [|y ys ids ids1 ids2 st st1 st2 evs1 evs2 S _ IH]; [done |].
  rewrite (paced_app _ _ _ _ Idle); [done |].
  destruct S as [e|rows st' evs T]; [done |]. simpl. by eapply teams_run_paced.
Qed.

(** ** The player harvester does what its runs say *)

Lemma save_player_unit BASE env n idx p_id (c : counters) (w : world) :
  ∃ c' st' evs,
    save_player BASE env n idx p_id (c, w)
      = (Returned tt, (c', World st' (trace w ++ evs))) ∧
    player_unit (p_file BASE p_id) n idx p_id c (store w) c' st' evs.
Proof.
  unfold save_player, fetch_and_save, count_error.
  set (path := p_file BASE p_id). py_unfold.
  destruct (store w !! path) as [f|] eqn:Hpath.
  { rewrite bool_decide_eq_true_2 by eauto. simpl.
    eexists _, _, _. split; [done |]. constructor. eauto. }
  rewrite bool_decide_eq_false_2 by (intros [? ?]; done). simpl.
  destruct (PlayerCareerStats env _ p_id) as [e|rows] eqn:Hfetch; simpl.
  { eexists _, _, ([_; _] ++ error_report p_id e (error_count c + 1)). split.
    - unfold error_report.
      destruct (error_count c + 1 <=? 10)%Z;
        [| destruct (error_count c + 1 =? 11)%Z];
        simpl; f_equal; f_equal; f_equal; close_trace.
    - by constructor. }
  destruct (to_json_outcome env _ path (CareerJson (drop_TOT rows)))
    as [| |e [bytes|]] eqn:Hw; simpl.
  - rewrite lookup_insert_eq, bool_decide_eq_true_2 by eauto. simpl.
    eexists _, _,
      ([_; _; _; _] ++ progress_report idx n p_id ++ [EvSleep 700]).
    split; [| by constructor].
    unfold progress_report.
    destruct ((idx mod 100 =? 0)%Z || (idx <=? 5)%Z);
      simpl; f_equal; f_equal; f_equal; close_trace.
  - rewrite Hpath, bool_decide_eq_false_2 by (intros [? ?]; done). simpl.
    eexists _, _, _. split; [by rewrite <- !app_assoc | by constructor].
  - eexists _, _, ([_; _; _] ++ error_report p_id e (error_count c + 1)). split.
    + unfold error_report.
      destruct (error_count c + 1 <=? 10)%Z;
        [| destruct (error_count c + 1 =? 11)%Z];
        simpl; f_equal; f_equal; f_equal; close_trace.
    + by apply (player_write_raised _ _ _ _ _ _ rows e (Some bytes)).
  - eexists _, _, ([_; _; _] ++ error_report p_id e (error_count c + 1)). split.
    + unfold error_report.
      destruct (error_count c + 1 <=? 10)%Z;
        [| destruct (error_count c + 1 =? 11)%Z];
        simpl; f_equal; f_equal; f_equal; close_trace.
    + by apply (player_write_raised _ _ _ _ _ _ rows e None).
Qed.

Lemma save_players_run BASE env n ps idx (c : counters) (w : world) :
  ∃ c' st' evs,
    for_enumerate idx ps (save_player BASE env n) (c, w)
      = (Returned tt, (c', World st' (trace w ++ evs))) ∧
    players_run BASE n idx ps c (store w) c' st' evs.
Proof.
  revert idx c w. induction ps as [|p ps IH]; intros idx c w; simpl.
  - exists c, (store w), []. rewrite app_nil_r. destruct w.
    split; [done | constructor].
  - destruct (save_player_unit BASE env n idx p c w) as (c1 & st1 & evs1 & H1 & U1).
    destruct (IH (idx + 1)%Z c1 (World st1 (trace w ++ evs1)))
      as (c2 & st2 & evs2 & H2 & U2).
    exists c2, st2, (evs1 ++ evs2). unfold bind. rewrite H1, H2. simpl.
    rewrite app_assoc. split; [done | by econstructor].
Qed.

Lemma fetch_player_data_run BASE env player_ids (w : world) :
  ∃ c st' evs,
    fetch_player_data_body BASE env player_ids (Counters 0 0 0, w)
      = (Returned tt,
         (c, World st'
               (trace w
                  ++ EvPrint (MsgSavingPlayers (Z.of_nat (length player_ids)))
                  :: evs
                  ++ [EvPrint (MsgComplete (saved_count c) (skipped_count c)
                                 (error_count c))]))) ∧
    players_run BASE (Z.of_nat (length player_ids)) 1 player_ids
      (Counters 0 0 0) (store w) c st' evs.
Proof.
  unfold fetch_player_data_body.
  unfold bind at 1, print, emit, log. simpl.
  unfold bind at 1, set_locals. simpl. unfold bind at 1.
  destruct (save_players_run BASE env (Z.of_nat (length player_ids)) player_ids 1
              (Counters 0 0 0)
              (World (store w)
                 (trace w
                    ++ [EvPrint (MsgSavingPlayers (Z.of_nat (length player_ids)))])))
    as (c & st' & evs & H & P).
  rewrite H. py_unfold. exists c, st', evs. split; [| done].
  by rewrite <- !app_assoc.
Qed.

Lemma player_unit_grows path n idx p c st c' st' evs :
  player_unit path n idx p c st c' st' evs → st ⊆ st'.
Proof.
  destruct 1; try done.
  - by apply insert_subseteq.
  - by apply after_failed_write_grows.
Qed.

Lemma players_run_grows BASE n idx ps c st c' st' evs :
  players_run BASE n idx ps c st c' st' evs → st ⊆ st'.
Proof.
  induction 1 as [|idx p ps c c1 c2 st st1 st2 evs1 evs2 U _ IH]; [done |].
  etrans; [by eapply player_unit_grows | done].
Qed.

(** ** Counting *)

Lemma tally_app kind evs1 evs2 :
  tally kind (evs1 ++ evs2) = (tally kind evs1 + tally kind evs2)%Z.
Proof. unfold tally. rewrite filter_app, length_app. lia. Qed.

Lemma tally_cons kind e evs :
  tally kind (e :: evs) = ((if kind e then 1 else 0) + tally kind evs)%Z.
Proof.
  unfold tally. destruct (kind e) eqn:He.
  - rewrite filter_cons_True by (simpl; rewrite He; simpl; tauto). simpl. lia.
  - rewrite filter_cons_False by (simpl; rewrite He; simpl; tauto). lia.
Qed.

Lemma tally_error_report kind p e errors :
  (∀ m, kind (EvPrint m) = false) → tally kind (error_report p e errors) = 0%Z.
Proof.
  intros Hkind. unfold error_report.
  repeat case_match; rewrite ?tally_cons, ?Hkind; done.
Qed.

Lemma tally_progress_report kind idx n p :
  (∀ m, kind (EvPrint m) = false) → tally kind (progress_report idx n p) = 0%Z.
Proof.
  intros Hkind. unfold progress_report.
  repeat case_match; rewrite ?tally_cons, ?Hkind; done.
Qed.

Ltac tally_simpl :=
  rewrite ?tally_app, ?tally_cons, ?tally_error_report, ?tally_progress_report
    by done;
  simpl.

Lemma player_unit_counters path n idx p c st c' st' evs :
  player_unit path n idx p c st c' st' evs →
  saved_count c' = (saved_count c + tally is_saved evs)%Z ∧
  error_count c' = (error_count c + tally is_error evs)%Z ∧
  skipped_count c' = (skipped_count c + tally_skipped evs)%Z ∧
  (tally is_saved evs + tally_skipped evs + tally is_error evs = 1)%Z.
Proof.
  unfold tally_skipped.
  destruct 1 as [Hin|e Hout|rows Hout|rows Hout|rows e lb Hout];
    repeat tally_simpl; change (tally _ []) with 0%Z; lia.
Qed.

Lemma players_run_counters BASE n idx ps c st c' st' evs :
  players_run BASE n idx ps c st c' st' evs →
  saved_count c' = (saved_count c + tally is_saved evs)%Z ∧
  error_count c' = (error_count c + tally is_error evs)%Z ∧
  skipped_count c' = (skipped_count c + tally_skipped evs)%Z ∧
  (tally is_saved evs + tally_skipped evs + tally is_error evs
   = Z.of_nat (length ps))%Z.
Proof.
  induction 1 as [|idx p ps c c1 c2 st st1 st2 evs1 evs2 U _ IH].
  { unfold tally_skipped. change (tally _ []) with 0%Z. simpl. lia. }
  apply player_unit_counters in U. unfold tally_skipped in *.
  rewrite !tally_app. simpl length. lia.
Qed.

(** ** Units are looked at, one after the other *)

Lemma player_unit_looked_at path n idx p c st c' st' evs :
  player_unit path n idx p c st c' st' evs → ∃ b, EvExists path b ∈ evs.
Proof. destruct 1; eexists; by left. Qed.

Lemma players_run_looked_at BASE n idx ps c st c' st' evs :
  players_run BASE n idx ps c st c' st' evs →
  ∀ q, q ∈ ps → ∃ b, EvExists (p_file BASE q) b ∈ evs.
Proof.
  induction 1 as [|idx p ps c c1 c2 st st1 st2 evs1 evs2 U _ IH]; intros q Hq.
  { by apply elem_of_nil in Hq. }
  apply elem_of_cons in Hq as [->|Hq].
  - apply player_unit_looked_at in U as [b Hb]. exists b.
    apply elem_of_app. by left.
  - destruct (IH q Hq) as [b Hb]. exists b. apply elem_of_app. by right.
Qed.

(** ** Pacing of the player harvester *)

Lemma player_unit_paced path n idx p c st c' st' evs :
  player_unit path n idx p c st c' st' evs → paced 700 Idle evs = Some Idle.
Proof.
  destruct 1; unfold progress_report, error_report; repeat case_match; done.
Qed.

Lemma players_run_paced BASE n idx ps c st c' st' evs :
  players_run BASE n idx ps c st c' st' evs → paced 700 Idle evs = Some Idle.
Proof.
  induction 1 as [|idx p ps c c1 c2 st st1 st2 evs1 evs2 U _ IH]; [done |].
  by rewrite (paced_app _ _ _ _ _ (player_unit_paced _ _ _ _ _ _ _ _ _ U)).
Qed.

(** ** A unit that raises *)

Lemma for_enumerate_app {S A} (i : Z) (xs1 xs2 : list A)
    (body : Z → A → py S unit) (s : S) :
  for_enumerate i (xs1 ++ xs2) body s
  = match for_enumerate i xs1 body s with
    | (Returned _, s1) => for_enumerate (i + Z.of_nat (length xs1)) xs2 body s1
    | (Raised e, s1) => (Raised e, s1)
    end.
Proof.
  revert i s. induction xs1 as [|x xs1 IH]; intros i s.
  - simpl. by rewrite Z.add_0_r.
  - simpl. unfold bind. destruct (body i x s) as [[[]|e] s1]; [| done].
    rewrite IH. destruct (for_enumerate (i + 1) xs1 body s1) as [[[]|e] s2];
      [| done].
    f_equal. lia.
Qed.

Lemma save_player_raised BASE env n idx p_id e (c : counters) (w : world) :
  store w !! p_file BASE p_id = None →
  (fetch_and_save BASE env n idx p_id
     (c, log (EvExists (p_file BASE p_id) false) w)).1 = Raised e →
  ∃ st' evs,
    save_player BASE env n idx p_id (c, w)
      = (Returned tt, (incr_error c, World st' (trace w ++ evs))) ∧
    tally is_error evs = 1%Z ∧ tally is_saved evs = 0%Z ∧
    tally_skipped evs = 0%Z.
Proof.
  intros Hpath. unfold save_player, fetch_and_save, count_error, tally_skipped.
  set (path := p_file BASE p_id) in *. py_unfold. rewrite Hpath.
  rewrite bool_decide_eq_false_2 by (intros [? ?]; done). simpl.
  destruct (PlayerCareerStats env _ p_id) as [e'|rows] eqn:Hfetch; simpl.
  { intros _.
    eexists _, ([_; _] ++ error_report p_id e' (error_count c + 1)). split.
    - unfold error_report.
      destruct (error_count c + 1 <=? 10)%Z;
        [| destruct (error_count c + 1 =? 11)%Z];
        simpl; f_equal; f_equal; f_equal; close_trace.
    - by repeat tally_simpl. }
  destruct (to_json_outcome env _ path (CareerJson (drop_TOT rows)))
    as [| |e' [bytes|]] eqn:Hw; simpl.
  - rewrite lookup_insert_eq, bool_decide_eq_true_2 by eauto. simpl.
    by destruct ((idx mod 100 =? 0)%Z || (idx <=? 5)%Z).
  - by rewrite Hpath, bool_decide_eq_false_2 by (intros [? ?]; done).
  - intros _.
    eexists _, ([_; _; _] ++ error_report p_id e' (error_count c + 1)). split.
    + unfold error_report.
      destruct (error_count c + 1 <=? 10)%Z;
        [| destruct (error_count c + 1 =? 11)%Z];
        simpl; f_equal; f_equal; f_equal; close_trace.
    + by repeat tally_simpl.
  - intros _.
    eexists _, ([_; _; _] ++ error_report p_id e' (error_count c + 1)). split.
    + unfold error_report.
      destruct (error_count c + 1 <=? 10)%Z;
        [| destruct (error_count c + 1 =? 11)%Z];
        simpl; f_equal; f_equal; f_equal; close_trace.
    + by repeat tally_simpl.
Qed.

(** ** What the player harvester leaves in the store *)

Lemma player_unit_stored path0 n idx p c st c' st' evs (path : string) :
  player_unit path0 n idx p c st c' st' evs →
  st' !! path = st !! path ∨
  path = path0 ∧ ∃ rows,
    EvCareerStats p (inr rows) ∈ evs ∧
    (st' !! path = Some (CareerJson (drop_TOT rows)) ∨
     ∃ bytes, st' !! path = Some (RawFile bytes)).
Proof.
  destruct 1 as [Hin|e Hout|rows Hout|rows Hout|rows e [bytes|] Hout];
    try (by left).
  - destruct (decide (path = path0)) as [->|Hne];
      [| left; by rewrite lookup_insert_ne].
    right. split; [done |]. exists rows. split; [right; left |].
    left. by rewrite lookup_insert_eq.
  - destruct (decide (path = path0)) as [->|Hne];
      [| left; simpl; by rewrite lookup_insert_ne].
    right. split; [done |]. exists rows. split; [right; left |].
    right. exists bytes. simpl. by rewrite lookup_insert_eq.
Qed.

Lemma players_run_stored BASE n idx ps c st c' st' evs (path : string) :
  players_run BASE n idx ps c st c' st' evs →
  st' !! path = st !! path ∨
  ∃ p rows,
    EvCareerStats p (inr rows) ∈ evs ∧ path = p_file BASE p ∧
    (st' !! path = Some (CareerJson (drop_TOT rows)) ∨
     ∃ bytes, st' !! path = Some (RawFile bytes)).
Proof.
  induction 1 as [|idx p ps c c1 c2 st st1 st2 evs1 evs2 U R IH]; [by left |].
  destruct IH as [Hsame|(q & rows & Hin & -> & Hst)].
  - destruct (player_unit_stored _ _ _ _ _ _ _ _ _ path U)
      as [Hunit|(-> & rows & Hin & Hst)]; [left; congruence |].
    right. exists p, rows. rewrite Hsame.
    split; [apply elem_of_app; by left | done].
  - right. exists q, rows. split; [apply elem_of_app; by right | done].
Qed.

Lemma fetched_careers_elem p_id rows evs :
  EvCareerStats p_id (inr rows) ∈ evs ↔ (p_id, rows) ∈ fetched_careers evs.
Proof.
  unfold fetched_careers. rewrite list_elem_of_omap. split.
  - intros Hin. by eexists.
  - intros (e & Hin & He). destruct e as [| | |p [x|rs]| | |]; by simplify_eq.
Qed.

Lemma player_unit_written path n idx p_id c st c' st' evs q fetched :
  player_unit path n idx p_id c st c' st' evs →
  (q, fetched) ∈ fetched_careers evs →
  q = p_id ∧ ∃ o,
    EvToJson path (CareerJson (drop_TOT fetched)) o ∈ evs ∧
    (o = Written → st' !! path = Some (CareerJson (drop_TOT fetched))).
Proof.
  intros U.
  assert (∀ e errors, fetched_careers (error_report p_id e errors) = []) as Herr.
  { intros e errors. unfold error_report. by repeat case_match. }
  destruct U as [Hin|e Hout|rows Hout|rows Hout|rows e lb Hout].
  - by intros ?%elem_of_nil.
  - change (fetched_careers (_ :: _ :: ?evs)) with (fetched_careers evs).
    rewrite Herr. by intros ?%elem_of_nil.
  - assert (fetched_careers
              ([EvExists path false; EvCareerStats p_id (inr rows);
                EvToJson path (CareerJson (drop_TOT rows)) Written;
                EvExists path true]
                 ++ progress_report idx n p_id ++ [EvSleep 700])
            = [(p_id, rows)]) as ->.
    { unfold progress_report. by case_match. }
    intros [= -> ->]%list_elem_of_singleton. split; [done |].
    exists Written. split; [do 2 right; left |].
    intros _. by rewrite lookup_insert_eq.
  - intros [= -> ->]%list_elem_of_singleton. split; [done |].
    exists NotCreated. split; [do 2 right; left | done].
  - change (fetched_careers (?e1 :: ?e2 :: ?e3 :: ?evs))
      with ((p_id, rows) :: fetched_careers evs).
    rewrite Herr. intros [= -> ->]%list_elem_of_singleton. split; [done |].
    exists (WriteFailed e lb). split; [do 2 right; left | done].
Qed.

Lemma players_run_written BASE n idx ps c st c' st' evs q fetched :
  players_run BASE n idx ps c st c' st' evs →
  (q, fetched) ∈ fetched_careers evs →
  ∃ o,
    EvToJson (p_file BASE q) (CareerJson (drop_TOT fetched)) o ∈ evs ∧
    (o = Written → st' !! p_file BASE q = Some (CareerJson (drop_TOT fetched))).
Proof.
  induction 1 as [|idx p ps c c1 c2 st st1 st2 evs1 evs2 U R IH].
  { by intros ?%elem_of_nil. }
  unfold fetched_careers in *. rewrite omap_app.
  intros [Hin|Hin]%elem_of_app.
  - destruct (player_unit_written _ _ _ _ _ _ _ _ _ _ _ U Hin)
      as (-> & o & Ho & Hst).
    exists o. split; [apply elem_of_app; by left |].
    intros Hw. eapply lookup_weaken; [by apply Hst |].
    by eapply players_run_grows.
  - destruct (IH Hin) as (o & Ho & Hst). exists o.
    split; [apply elem_of_app; by right | done].
Qed.

(** ** The filter on career rows *)

Lemma not_TOT_spec row :
  not_TOT row = true ↔ TEAM_ABBREVIATION row ≠ JStr "TOT".
Proof.
  unfold not_TOT. destruct (TEAM_ABBREVIATION row) as [| | | |s| |]; try done.
  rewrite negb_true_iff, String.eqb_neq. naive_solver.
Qed.

Lemma drop_TOT_clean rows :
  Forall (λ row, TEAM_ABBREVIATION row ≠ JStr "TOT") (drop_TOT rows).
Proof.
  apply Forall_forall. intros row [Hrow _]%list_elem_of_filter.
  apply not_TOT_spec. by apply Is_true_true.
Qed.

Lemma drop_TOT_keeps rows kept :
  kept `sublist_of` rows →
  Forall (λ row, TEAM_ABBREVIATION row ≠ JStr "TOT") kept →
  kept `sublist_of` drop_TOT rows.
Proof.
  unfold drop_TOT.
  induction 1 as [|row kept rows _ IH|row kept rows _ IH]; intros Hkept.
  - done.
  - apply Forall_cons in Hkept as [Hrow Hkept].
    rewrite filter_cons_True by (apply Is_true_true; by apply not_TOT_spec).
    apply sublist_skip. by apply IH.
  - rewrite filter_cons. case_decide; [apply sublist_cons |]; by apply IH.
Qed.

(** ** The index builder, entry by entry *)

Lemma add_player_scannable player (s : index_state) :
  scannable player = true →
  add_player player s
  = (Returned tt, IndexState (remember (player_names s) player) (reported s)).
Proof.
  destruct player as [| | | | | |members]; try done.
  unfold scannable, remember, usable, add_player. simpl.
  destruct (truthy (dict_get "PLAYER_ID" members)
            && truthy (dict_get "PLAYER" members)); [| by destruct s].
  destruct (hash_key (dict_get "PLAYER_ID" members)) as [k|]; simpl.
  - intros _. destruct (dict_contains (player_names s) k); by destruct s.
  - done.
Qed.

Lemma add_player_unscannable player (s : index_state) :
  scannable player = false → ∃ e, add_player player s = (Raised e, s).
Proof.
  destruct player as [| | | | | |members]; try by eexists.
  unfold scannable, usable, add_player. simpl.
  destruct (truthy (dict_get "PLAYER_ID" members)
            && truthy (dict_get "PLAYER" members)); [| done].
  destruct (hash_key (dict_get "PLAYER_ID" members)) as [k|]; simpl.
  - done.
  - by eexists.
Qed.

Lemma add_players_reached items (s : index_state) :
  ∃ r, for_each items add_player s
       = (r, IndexState (foldl remember (player_names s) (reached_items items))
               (reported s)).
Proof.
  revert s. induction items as [|player items IH]; intros s; simpl.
  - exists (Returned tt). by destruct s.
  - unfold bind. destruct (scannable player) eqn:Hscan.
    + rewrite add_player_scannable by done.
      destruct (IH (IndexState (remember (player_names s) player) (reported s)))
        as [r Hr].
      exists r. by rewrite Hr.
    + destruct (add_player_unscannable player s Hscan) as [e He].
      exists (Raised e). rewrite He. by destruct s.
Qed.

Lemma reached_items_strings (names : list string) :
  reached_items (JStr <$> names) = [].
Proof. by destruct names. Qed.

Lemma reached_items_characters (s : string) : reached_items (characters s) = [].
Proof. by destruct s. Qed.

Lemma scan_loop_reached (name : string) items (s : index_state) :
  ∃ rep,
    match for_each items add_player s with
    | (Returned a, s') => (Returned a, s')
    | (Raised e, s') =>
        (Returned tt, IndexState (player_names s') (reported s' ++ [(name, e)]))
    end
    = (Returned tt,
       IndexState (foldl remember (player_names s) (reached_items items)) rep).
Proof.
  destruct (add_players_reached items s) as [[[]|e] Hr]; rewrite Hr; by eexists.
Qed.

Lemma scan_team_file_reached team_file (s : index_state) :
  ∃ rep, scan_team_file team_file s
         = (Returned tt,
            IndexState (foldl remember (player_names s) (reached team_file.2)) rep).
Proof.
  unfold scan_team_file, try_except, bind, iterate, reached, ret, raise.
  destruct team_file as [name [e|roster_data]]; simpl; [by eexists |].
  destruct roster_data as [| | | |str|items|members]; simpl;
    try (by eexists).
  - destruct (scan_loop_reached name (characters str) s) as [rep Hrep].
    rewrite reached_items_characters in Hrep. eauto.
  - apply scan_loop_reached.
  - destruct (scan_loop_reached name (JStr <$> unique (members.*1)) s)
      as [rep Hrep].
    rewrite reached_items_strings in Hrep. eauto.
Qed.

Lemma generate_player_names_scanned team_files (s : index_state) :
  ∃ rep, for_each team_files scan_team_file s
         = (Returned tt,
            IndexState (foldl remember (player_names s) (scanned team_files)) rep).
Proof.
  revert s. induction team_files as [|team_file team_files IH]; intros s; simpl.
  - exists (reported s). by destruct s.
  - unfold bind.
    destruct (scan_team_file_reached team_file s) as [rep1 H1]. rewrite H1.
    destruct (IH (IndexState
                    (foldl remember (player_names s) (reached team_file.2)) rep1))
      as [rep2 H2].
    exists rep2. rewrite H2. unfold scanned. simpl. by rewrite foldl_app.
Qed.

(** ** Looking a key up in the index *)

Lemma dict_contains_lookup (d : pydict) k :
  dict_contains d k = true ↔ is_Some (dict_lookup d k).
Proof.
  unfold dict_contains, dict_lookup.
  induction d as [|[key v] d IH]; simpl.
  - split; [done | by intros [? ?]].
  - destruct (bool_decide (hash_key key = Some k)); simpl; [| done].
    split; [eauto | done].
Qed.

Lemma dict_lookup_app (d1 d2 : pydict) k :
  dict_lookup (d1 ++ d2) k
  = match dict_lookup d1 k with
    | Some v => Some v
    | None => dict_lookup d2 k
    end.
Proof.
  unfold dict_lookup. induction d1 as [|[key v] d1 IH]; simpl; [done |].
  by destruct (bool_decide (hash_key key = Some k)).
Qed.

Lemma dict_lookup_remember (d : pydict) player k :
  dict_lookup (remember d player) k
  = match dict_lookup d k with
    | Some v => Some v
    | None => if names k player then Some (entry_name player) else None
    end.
Proof.
  unfold remember, names. destruct (usable player); simpl;
    [| by destruct (dict_lookup d k)].
  destruct (hash_key (entry_id player)) as [k'|] eqn:Hk; simpl.
  - destruct (dict_contains d k') eqn:Hin.
    + case_bool_decide as Heq; [| by destruct (dict_lookup d k)].
      simplify_eq. apply dict_contains_lookup in Hin as [v Hv]. by rewrite Hv.
    + rewrite dict_lookup_app. destruct (dict_lookup d k); [done |].
      unfold dict_lookup. simpl. rewrite Hk. by case_bool_decide.
  - by destruct (dict_lookup d k).
Qed.

Lemma dict_lookup_foldl_remember entries (d : pydict) k :
  dict_lookup (foldl remember d entries) k
  = match dict_lookup d k with
    | Some v => Some v
    | None => first_usable_name k entries
    end.
Proof.
  revert d. induction entries as [|player entries IH]; intros d; simpl.
  - by destruct (dict_lookup d k).
  - rewrite IH, dict_lookup_remember. unfold first_usable_name. simpl.
    destruct (dict_lookup d k); [done |]. by destruct (names k player).
Qed.

(** ** Where the entries of the index come from *)

Lemma remember_origin (d : pydict) player kv :
  kv ∈ remember d player →
  kv ∈ d ∨ usable player = true ∧ kv = (entry_id player, entry_name player).
Proof.
  unfold remember. destruct (usable player); [| by left].
  destruct (hash_key (entry_id player)); [| by left].
  destruct (dict_contains d p); [by left |].
  intros [?|?%list_elem_of_singleton]%elem_of_app; [by left | by right].
Qed.

Lemma foldl_remember_origin entries (d : pydict) kv :
  kv ∈ foldl remember d entries →
  kv ∈ d ∨ ∃ player,
    player ∈ entries ∧ usable player = true ∧
    kv = (entry_id player, entry_name player).
Proof.
  revert d. induction entries as [|player entries IH]; intros d; simpl.
  - by left.
  - intros [[?|[? ?]]%remember_origin|(p & ? & ? & ?)]%IH.
    + by left.
    + right. exists player. split; [left | done].
    + right. exists p. split; [by right | done].
Qed.

Lemma reached_items_listed items player :
  player ∈ reached_items items →
  player ∈ items ∧ ∃ members, player = JObj members.
Proof.
  induction items as [|x items IH]; simpl; [by intros ?%elem_of_nil |].
  destruct (scannable x) eqn:Hx; [| by intros ?%elem_of_nil].
  intros [Heq|[? ?]%IH]%elem_of_cons.
  - subst x. split; [left |]. destruct player; try done. by eexists.
  - split; [by right | done].
Qed.

Lemma scanned_listed team_files player :
  player ∈ scanned team_files →
  ∃ name items members,
    (name, inr (JArr items)) ∈ team_files ∧ player ∈ items ∧
    player = JObj members.
Proof.
  unfold scanned. intros ([name loaded] & Hin & Hfile)%list_elem_of_bind.
  simpl in Hin. destruct loaded as [e|[| | | | |items|]];
    try (by apply elem_of_nil in Hin).
  apply reached_items_listed in Hin as [Hin [members ->]].
  by exists name, items, members.
Qed.

(** ** File names tell the teams apart *)

Lemma pretty_N_go_underscore_free (x : N) (s : string) :
  underscore_free s → underscore_free (pretty_N_go x s).
Proof.
  revert s. induction (N.lt_wf_0 x) as [x _ IH]; intros s Hs.
  destruct (decide (0 < x)%N) as [Hpos|Hzero].
  - rewrite pretty_N_go_step by done. apply IH.
    + by apply N.div_lt.
    + split; [| done]. unfold pretty_N_char. by repeat case_match.
  - replace x with 0%N by lia. by rewrite pretty_N_go_0.
Qed.

Lemma pretty_Z_underscore_free (z : Z) : underscore_free (pretty z).
Proof.
  assert (∀ p : positive, underscore_free (pretty p)) as Hpos.
  { intros p. unfold pretty, pretty_positive, pretty, pretty_N.
    case_decide; [done |]. by apply pretty_N_go_underscore_free. }
  destruct z as [|p|p]; [done | apply Hpos |].
  split; [done | apply Hpos].
Qed.

Lemma underscore_free_prefix_inj (a b x y : string) :
  underscore_free a → underscore_free b →
  a +:+ String "_" x = b +:+ String "_" y → a = b.
Proof.
  revert b. induction a as [|c a IH]; intros [|c' b]; simpl.
  - done.
  - intros _ [Hc' _] [= <- _]. done.
  - intros [Hc _] _ [= -> _]. done.
  - intros [_ Ha] [_ Hb] [= -> Heq]. f_equal. by apply IH.
Qed.

Lemma team_file_team BASE t t' season season' :
  team_file BASE t season = team_file BASE t' season' → t = t'.
Proof.
  unfold team_file. intros Heq.
  apply (inj (String.app BASE)), (inj (String.app "/teams/")) in Heq.
  apply (inj pretty).
  eapply underscore_free_prefix_inj; [apply pretty_Z_underscore_free.. |].
  exact Heq.
Qed.

Lemma concerns_team_touched BASE evs season :
  Forall (concerns_team BASE) evs →
  team_file BASE 0 season ∉ touched_paths evs.
Proof.
  intros Hall (e & He & Hpath)%list_elem_of_omap.
  rewrite Forall_forall in Hall. specialize (Hall e He).
  destruct e; simplify_eq; simpl in Hall;
    destruct Hall as (t & season' & Ht & Heq);
    by apply team_file_team in Heq.
Qed.

(** ** A file is put at a path once *)

Lemma NoDup_created (l1 l2 : list string) (st1 : gmap string file) :
  NoDup l1 → NoDup l2 →
  (∀ path, path ∈ l1 → is_Some (st1 !! path)) →
  (∀ path, path ∈ l2 → st1 !! path = None) →
  NoDup (l1 ++ l2).
Proof.
  intros H1 H2 Hin Hout. apply NoDup_app. split; [done |]. split; [| done].
  intros path [f Hf]%Hin Hnone%Hout. congruence.
Qed.

Lemma roster_unit_created path t season st st' evs :
  roster_unit path t season st st' evs →
  NoDup (created_paths evs) ∧
  ∀ p, p ∈ created_paths evs → st !! p = None ∧ is_Some (st' !! p).
Proof.
  destruct 1 as [Hin|e Hout|r Hout|r Hout|r e [bytes|] Hout];
    (split; [try (by constructor) | intros p Hp]);
    try (by apply elem_of_nil in Hp).
  - apply NoDup_singleton.
  - apply list_elem_of_singleton in Hp as ->. by rewrite lookup_insert_eq.
  - apply NoDup_singleton.
  - apply list_elem_of_singleton in Hp as ->. simpl.
    by rewrite lookup_insert_eq.
Qed.

Lemma player_unit_created path n idx p_id c st c' st' evs :
  player_unit path n idx p_id c st c' st' evs →
  NoDup (created_paths evs) ∧
  ∀ p, p ∈ created_paths evs → st !! p = None ∧ is_Some (st' !! p).
Proof.
  intros U.
  assert (created_paths evs = [] ∨
          created_paths evs = [path] ∧ st !! path = None ∧ is_Some (st' !! path))
    as [->|(-> & Hnone & Hsome)].
  { destruct U as [Hin|e Hout|rows Hout|rows Hout|rows e [bytes|] Hout];
      unfold error_report, progress_report; repeat case_match;
      first [by left | right; split; [done |]; split; [done |]];
      simpl; by rewrite lookup_insert_eq. }
  - split; [constructor | by intros p ?%elem_of_nil].
  - split; [apply NoDup_singleton |].
    by intros p ->%list_elem_of_singleton.
Qed.

Lemma created_step (st st1 st2 : gmap string file) (l1 l2 : list string) :
  st ⊆ st1 → st1 ⊆ st2 →
  (NoDup l1 ∧ ∀ p, p ∈ l1 → st !! p = None ∧ is_Some (st1 !! p)) →
  (NoDup l2 ∧ ∀ p, p ∈ l2 → st1 !! p = None ∧ is_Some (st2 !! p)) →
  NoDup (l1 ++ l2) ∧ ∀ p, p ∈ l1 ++ l2 → st !! p = None ∧ is_Some (st2 !! p).
Proof.
  intros Hsub1 Hsub2 [Hdup1 H1] [Hdup2 H2]. split.
  - apply (NoDup_created _ _ st1); [done.. | |]; naive_solver.
  - intros p [Hp|Hp]%elem_of_app.
    + destruct (H1 p Hp) as [Hnone Hsome]. split; [done |].
      by eapply lookup_weaken_is_Some.
    + destruct (H2 p Hp) as [Hnone Hsome]. split; [| done].
      by eapply lookup_weaken_None.
Qed.

Lemma teams_run_created BASE season ts st st' evs :
  teams_run BASE season ts st st' evs →
  NoDup (created_paths evs) ∧
  ∀ p, p ∈ created_paths evs → st !! p = None ∧ is_Some (st' !! p).
Proof.
  induction 1 as [|t ts st st1 st2 evs1 evs2 U T IH].
  { split; [constructor | by intros p ?%elem_of_nil]. }
  unfold created_paths in *. rewrite omap_app.
  eapply created_step; [by eapply roster_unit_grows | by eapply teams_run_grows | |
    done].
  by eapply roster_unit_created.
Qed.

Lemma years_run_created BASE ys ids st ids' st' evs :
  years_run BASE ys ids st ids' st' evs →
  NoDup (created_paths evs) ∧
  ∀ p, p ∈ created_paths evs → st !! p = None ∧ is_Some (st' !! p).
Proof.
  induction 1 as [|y ys ids ids1 ids2 st st1 st2 evs1 evs2 S Y IH].
  { split; [constructor | by intros p ?%elem_of_nil]. }
  unfold created_paths in *. rewrite omap_app.
  eapply created_step; [by eapply season_run_grows | by eapply years_run_grows | |
    done].
  destruct S as [e|rows st' evs T].
  - split; [constructor | by intros p ?%elem_of_nil].
  - exact (teams_run_created _ _ _ _ _ _ T).
Qed.

Lemma players_run_created BASE n idx ps c st c' st' evs :
  players_run BASE n idx ps c st c' st' evs →
  NoDup (created_paths evs) ∧
  ∀ p, p ∈ created_paths evs → st !! p = None ∧ is_Some (st' !! p).
Proof.
  induction 1 as [|idx p ps c c1 c2 st st1 st2 evs1 evs2 U R IH].
  { split; [constructor | by intros q ?%elem_of_nil]. }
  unfold created_paths in *. rewrite omap_app.
  eapply created_step; [by eapply player_unit_grows | by eapply players_run_grows | |
    done].
  by eapply player_unit_created.
Qed.

(** * The claims *)

(** C9. A record that is in the store when a harvester starts on a unit is
    still there, unchanged, when the unit is done, and so it is at the end
    of the run: the store after a unit, and after a whole run of either
    harvester, extends the store before it, so nothing is overwritten and
    nothing is deleted.  A run puts a file at a path at most once, and only
    at a path that held nothing when the run began. *)
Theorem stored_records_are_kept BASE env :
  (∀ season team_id ids w,
     store w ⊆ store (save_roster BASE env season team_id (ids, w)).2.2) ∧
  (∀ n idx p_id c w,
     store w ⊆ store (save_player BASE env n idx p_id (c, w)).2.2) ∧
  (∀ after_year current_year w,
     store w ⊆ store (fetch_team_rosters BASE env after_year current_year w).2 ∧
     NoDup (created_paths
              (events_since w
                 (fetch_team_rosters BASE env after_year current_year w).2)) ∧
     Forall (λ path, store w !! path = None)
       (created_paths
          (events_since w
             (fetch_team_rosters BASE env after_year current_year w).2))) ∧
  (∀ player_ids w,
     store w ⊆ store (fetch_player_data BASE env player_ids w).2 ∧
     NoDup (created_paths
              (events_since w (fetch_player_data BASE env player_ids w).2)) ∧
     Forall (λ path, store w !! path = None)
       (created_paths
          (events_since w (fetch_player_data BASE env player_ids w).2))).
Proof.
  repeat apply conj.
  - intros season t ids w.
    destruct (save_roster_unit BASE env season t ids w) as (st' & evs & H & U).
    rewrite H. simpl. by eapply roster_unit_grows.
  - intros n idx p c w.
    destruct (save_player_unit BASE env n idx p c w) as (c' & st' & evs & H & U).
    rewrite H. simpl. by eapply player_unit_grows.
  - intros a y w.
    destruct (fetch_team_rosters_run BASE env a y w) as (ids & st' & evs & H & Y).
    rewrite H. simpl. rewrite events_since_app.
    split; [by eapply years_run_grows |].
    destruct (years_run_created _ _ _ _ _ _ _ Y) as [Hdup Hnew].
    split; [done |]. apply Forall_forall. intros path Hpath.
    by destruct (Hnew path Hpath).
  - intros ps w. unfold fetch_player_data.
    destruct (fetch_player_data_run BASE env ps w) as (c & st' & evs & H & P).
    rewrite H. simpl. rewrite events_since_app.
    split; [by eapply players_run_grows |].
    destruct (players_run_created _ _ _ _ _ _ _ _ _ P) as [Hdup Hnew].
    assert (created_paths
              (EvPrint (MsgSavingPlayers (Z.of_nat (length ps)))
                 :: evs ++ [EvPrint (MsgComplete (saved_count c) (skipped_count c)
                                       (error_count c))])
            = created_paths evs) as ->.
    { unfold created_paths. simpl. rewrite omap_app. simpl. apply app_nil_r. }
    split; [done |]. apply Forall_forall. intros path Hpath.
    by destruct (Hnew path Hpath).
Qed.

(** C7. The teams of a season are the distinct non-zero team identifiers of
    its listing, each once; within one season no team's roster is asked for
    twice; and in a whole run no roster is asked for team 0 and, whatever
    the season, the file of team 0 is neither looked at nor written. *)
Theorem sentinel_team_is_no_unit BASE env :
  (∀ rows,
     NoDup (valid_teams rows) ∧ (0%Z ∉ valid_teams rows) ∧
     ∀ t, t ∈ valid_teams rows ↔
          t ≠ 0%Z ∧ ∃ row, row ∈ rows ∧ TEAM_ID row = t) ∧
  (∀ year ids w,
     NoDup (fetched_teams
              (events_since w (process_season BASE env year (ids, w)).2.2))) ∧
  (∀ after_year current_year w season,
     (0%Z ∉ fetched_teams
              (events_since w
                 (fetch_team_rosters BASE env after_year current_year w).2)) ∧
     (team_file BASE 0 season
        ∉ touched_paths
            (events_since w
               (fetch_team_rosters BASE env after_year current_year w).2))).
Proof.
  split; [| split].
  - intros rows. split; [apply unique_from_NoDup |]. split.
    + rewrite valid_teams_elem. naive_solver.
    + apply valid_teams_elem.
  - intros year ids w.
    destruct (process_season_run BASE env year ids w)
      as (ids' & st' & evs & H & S).
    rewrite H. simpl. rewrite events_since_app.
    destruct S as [e|rows st' evs T]; [constructor |].
    change (NoDup (fetched_teams evs)).
    eapply sublist_NoDup; [apply unique_from_NoDup |].
    by eapply teams_run_fetched.
  - intros a y w season.
    destruct (fetch_team_rosters_run BASE env a y w) as (ids & st' & evs & H & Y).
    rewrite H. simpl. rewrite events_since_app.
    pose proof (years_run_concerns _ _ _ _ _ _ _ Y) as Hall.
    split; [| by apply concerns_team_touched].
    intros (e & He & Hteam)%list_elem_of_omap.
    rewrite Forall_forall in Hall. specialize (Hall e He).
    destruct e; simplify_eq. done.
Qed.

Lemma listings_asked_app env before evs1 evs2 :
  listings_asked env before evs1 →
  listings_asked env (before ++ evs1) evs2 →
  listings_asked env before (evs1 ++ evs2).
Proof.
  intros H1 H2 i season r Hi.
  destruct (decide (i < length evs1)) as [Hlt|Hge].
  - rewrite lookup_app_l in Hi by done.
    rewrite take_app_le by lia. by apply H1.
  - rewrite lookup_app_r in Hi by lia.
    rewrite take_app_ge by lia. rewrite app_assoc. by apply H2.
Qed.

Lemma process_season_asked BASE env year (ids : gset Z) (w : world) :
  ∃ ids' st' evs,
    process_season BASE env year (ids, w)
      = (Returned tt, (ids', World st' (trace w ++ evs))) ∧
    season_run BASE year ids (store w) ids' st' evs ∧
    listings_asked env (trace w) evs ∧
    ids' = match
             CommonAllPlayers env
               (trace w ++ [EvPrint (MsgProcessing (season_str year))])
               (season_str year)
           with
           | inr rows => ids ∪ list_to_set (PERSON_ID <$> rows)
           | inl _ => ids
           end.
Proof.
  unfold process_season. set (season := season_str year).
  unfold bind at 1, print, emit, log, try_except. simpl.
  unfold bind at 1, get_all_players, answer, log. simpl.
  destruct (CommonAllPlayers env _ season) as [e|rows] eqn:Hlist; simpl.
  { eexists _, _, _. split; [by rewrite <- !app_assoc |].
    split; [constructor |]. split; [| done].
    intros [|[|[|i]]] season' r Hi; simpl in Hi; simplify_eq. done. }
  unfold bind at 1.
  destruct (save_rosters_run BASE env season (valid_teams rows) ids
              (World (store w)
                 ((trace w ++ [EvPrint (MsgProcessing season)])
                    ++ [EvAllPlayers season (inr rows)])))
    as (st' & evs & H & T).
  rewrite H. unfold set_locals. simpl.
  eexists _, _, _. split; [by rewrite <- !app_assoc |].
  split; [by constructor |]. split; [| done].
  intros [|[|i]] season' r Hi; simpl in Hi; simplify_eq; [done |].
  apply list_elem_of_lookup_2, listings_elem in Hi.
  apply teams_run_no_listing in T as [T _]. rewrite T in Hi.
  by apply elem_of_nil in Hi.
Qed.

Lemma process_seasons_asked BASE env ys (ids : gset Z) (w : world) :
  ∃ ids' st' evs,
    for_each ys (process_season BASE env) (ids, w)
      = (Returned tt, (ids', World st' (trace w ++ evs))) ∧
    years_run BASE ys ids (store w) ids' st' evs ∧
    listings_asked env (trace w) evs.
Proof.
  revert ids w. induction ys as [|y ys IH]; intros ids w; simpl.
  - exists ids, (store w), []. rewrite app_nil_r. destruct w.
    split; [done |]. split; [constructor |]. by intros i season r Hi.
  - destruct (process_season_asked BASE env y ids w)
      as (ids1 & st1 & evs1 & H1 & S1 & A1 & _).
    destruct (IH ids1 (World st1 (trace w ++ evs1)))
      as (ids2 & st2 & evs2 & H2 & S2 & A2).
    exists ids2, st2, (evs1 ++ evs2). unfold bind. rewrite H1, H2. simpl.
    rewrite app_assoc. split; [done |]. split; [by econstructor |].
    by apply listings_asked_app.
Qed.

Lemma fetch_team_rosters_asked BASE env after_year current_year (w : world) :
  ∃ ids st' evs,
    fetch_team_rosters BASE env after_year current_year w
      = (Returned ids, World st' (trace w ++ evs)) ∧
    years_run BASE (seqZ after_year (current_year + 1 - after_year))
      ∅ (store w) ids st' evs ∧
    listings_asked env (trace w) evs.
Proof.
  unfold fetch_team_rosters, fetch_team_rosters_body, bind, set_locals. simpl.
  destruct (process_seasons_asked BASE env
              (seqZ after_year (current_year + 1 - after_year)) ∅ w)
    as (ids & st' & evs & H & Y & A).
  rewrite H. simpl. by exists ids, st', evs.
Qed.

(** C3. [fetch_team_rosters] asks the provider for the listing of each
    season of the range, once and in order, and every listing call of the
    run carries what [CommonAllPlayers] answers at that moment; the set
    returned holds exactly the player identifiers of the listings that came
    back.  Season by season, [process_season] adds to the set every
    identifier of the listing the provider returns, free agents among them,
    and leaves the set as it is when the listing call raises; neither
    [CommonTeamRoster] nor the outcome of a write has a part in it. *)
Theorem identifier_set_is_union_of_listings BASE env after_year current_year w :
  (∀ year ids w0,
     process_season BASE env year (ids, w0)
       = (Returned tt, (process_season BASE env year (ids, w0)).2) ∧
     (process_season BASE env year (ids, w0)).2.1
       = match
           CommonAllPlayers env
             (trace w0 ++ [EvPrint (MsgProcessing (season_str year))])
             (season_str year)
         with
         | inr rows => ids ∪ list_to_set (PERSON_ID <$> rows)
         | inl _ => ids
         end) ∧
  ∃ ids w',
    fetch_team_rosters BASE env after_year current_year w = (Returned ids, w') ∧
    listed_seasons (events_since w w')
      = season_str <$> seqZ after_year (current_year + 1 - after_year) ∧
    listings_asked env (trace w) (events_since w w') ∧
    ∀ p_id,
      p_id ∈ ids ↔
      ∃ season rows,
        EvAllPlayers season (inr rows) ∈ events_since w w' ∧
        p_id ∈ PERSON_ID <$> rows.
Proof.
  split.
  { intros year ids w0.
    destruct (process_season_asked BASE env year ids w0)
      as (ids' & st' & evs & H & _ & _ & Hids).
    rewrite H. simpl. by split. }
  destruct (fetch_team_rosters_asked BASE env after_year current_year w)
    as (ids & st' & evs & H & Y & A).
  exists ids, (World st' (trace w ++ evs)). rewrite events_since_app.
  split; [done |]. split; [by eapply years_run_listed |]. split; [done |].
  intros p. rewrite (years_run_ids _ _ _ _ _ _ _ p Y). set_solver.
Qed.

(** C1, amended.  When, in a first run, no roster call raised and every
    write left its file, and the provider lists the same players in the
    second run over the same range, then the second run leaves the store as
    it is, asks for no roster and writes nothing; what it still sends to the
    provider is the listing call of each season of the range. *)
Theorem rerun_fetches_no_roster BASE env after_year current_year w :
  Forall unit_succeeded
    (events_since w (fetch_team_rosters BASE env after_year current_year w).2) →
  listings
    (events_since (fetch_team_rosters BASE env after_year current_year w).2
       (fetch_team_rosters BASE env after_year current_year
          (fetch_team_rosters BASE env after_year current_year w).2).2)
  = listings
      (events_since w (fetch_team_rosters BASE env after_year current_year w).2) →
  ∃ w1 w2,
    w1 = (fetch_team_rosters BASE env after_year current_year w).2 ∧
    w2 = (fetch_team_rosters BASE env after_year current_year w1).2 ∧
    store w2 = store w1 ∧
    fetched_teams (events_since w1 w2) = [] ∧
    written_paths (events_since w1 w2) = [] ∧
    external_calls (events_since w1 w2) = listings (events_since w1 w2) ∧
    listed_seasons (events_since w1 w2)
      = season_str <$> seqZ after_year (current_year + 1 - after_year).
Proof.
  destruct (fetch_team_rosters_run BASE env after_year current_year w)
    as (ids1 & st1 & evs1 & H1 & Y1).
  rewrite H1. simpl.
  destruct (fetch_team_rosters_run BASE env after_year current_year
              (World st1 (trace w ++ evs1)))
    as (ids2 & st2 & evs2 & H2 & Y2).
  rewrite H2. simpl in *.
  rewrite events_since_app, (events_since_app (World st1 (trace w ++ evs1))).
  intros Hok Hsame.
  exists (World st1 (trace w ++ evs1)), (World st2 ((trace w ++ evs1) ++ evs2)).
  split; [done |]. split; [by rewrite H2 |].
  rewrite (events_since_app (World st1 (trace w ++ evs1))). simpl.
  destruct (years_run_all_present _ _ _ _ _ _ _ Y2) as [-> Hquiet].
  { intros season rows Hin. apply (years_run_all_stored _ _ _ _ _ _ _ Y1 Hok).
    apply (proj2 (listings_elem season (inr rows) evs1)). rewrite <- Hsame.
    by apply (proj1 (listings_elem season (inr rows) evs2)). }
  split; [done |].
  destruct (quiet_nothing_fetched _ Hquiet) as (? & ? & ?).
  repeat split; try done. by eapply years_run_listed.
Qed.

(** C4, amended.  In a run of either harvester a frame that has arrived is
    written next, a frame written without an exception is followed by the
    pause of the component (800 ms for rosters, 700 ms for careers) before
    anything else goes to the provider, and there is no pause at any other
    moment: none after a skipped key, none after a call or a write that
    raised, none after the listing call of a season. *)
Theorem pause_follows_every_written_fetch BASE env :
  (∀ after_year current_year w,
     paced 800 Idle
       (events_since w (fetch_team_rosters BASE env after_year current_year w).2)
     = Some Idle) ∧
  (∀ player_ids w,
     paced 700 Idle
       (events_since w (fetch_player_data BASE env player_ids w).2)
     = Some Idle).
Proof.
  split.
  - intros a y w.
    destruct (fetch_team_rosters_run BASE env a y w) as (ids & st' & evs & H & Y).
    rewrite H. simpl. rewrite events_since_app. by eapply years_run_paced.
  - intros ps w. unfold fetch_player_data.
    destruct (fetch_player_data_run BASE env ps w) as (c & st' & evs & H & P).
    rewrite H. simpl. rewrite events_since_app. simpl.
    by rewrite (paced_app _ _ _ _ _ (players_run_paced _ _ _ _ _ _ _ _ _ P)).
Qed.

(** C5, amended.  [fetch_player_data] returns [None]; the final counts are
    the last thing it prints: the numbers of units saved, skipped and gone
    wrong in this run, which add up to the number of units. *)
Theorem summary_is_printed BASE env player_ids w :
  ∃ w' evs,
    fetch_player_data BASE env player_ids w = (Returned tt, w') ∧
    evs = events_since w w' ∧
    last evs
      = Some (EvPrint (MsgComplete (tally is_saved evs) (tally_skipped evs)
                         (tally is_error evs))) ∧
    (tally is_saved evs + tally_skipped evs + tally is_error evs
     = Z.of_nat (length player_ids))%Z.
Proof.
  unfold fetch_player_data.
  destruct (fetch_player_data_run BASE env player_ids w)
    as (c & st' & evs & H & P).
  rewrite H. simpl. eexists _, _. split; [done |]. split; [done |].
  rewrite events_since_app.
  apply players_run_counters in P as (Hsaved & Herror & Hskipped & Hsum).
  simpl in *.
  assert (∀ kind, (∀ m, kind (EvPrint m) = false) →
    tally kind
      (EvPrint (MsgSavingPlayers (Z.of_nat (length player_ids)))
         :: evs ++ [EvPrint (MsgComplete (saved_count c) (skipped_count c)
                               (error_count c))])
    = tally kind evs) as Htally.
  { intros kind Hkind. rewrite tally_cons, tally_app, tally_cons, !Hkind.
    change (tally kind []) with 0%Z. lia. }
  unfold tally_skipped in *. rewrite !Htally by done. split; [| done].
  rewrite app_comm_cons, last_snoc. do 3 f_equal; lia.
Qed.

Lemma state_before_unit_loop BASE env player_ids k (w : world) :
  state_before_unit BASE env player_ids k w
  = (for_enumerate 1 (take (k - 1) player_ids)
       (save_player BASE env (Z.of_nat (length player_ids)))
       (Counters 0 0 0,
        World (store w)
          (trace w ++ [EvPrint (MsgSavingPlayers (Z.of_nat (length player_ids)))]))).2.
Proof. reflexivity. Qed.

Lemma fetch_player_data_body_loop BASE env player_ids (w : world) :
  fetch_player_data_body BASE env player_ids (Counters 0 0 0, w)
  = match
      for_enumerate 1 player_ids
        (save_player BASE env (Z.of_nat (length player_ids)))
        (Counters 0 0 0,
         World (store w)
           (trace w ++ [EvPrint (MsgSavingPlayers (Z.of_nat (length player_ids)))]))
    with
    | (Returned _, s) =>
        (Returned tt,
         (s.1,
          log (EvPrint (MsgComplete (saved_count s.1) (skipped_count s.1)
                          (error_count s.1))) s.2))
    | (Raised e, s) => (Raised e, s)
    end.
Proof. reflexivity. Qed.

(** C2.  When the [try] block of unit [k] of a run of [fetch_player_data]
    raises, the run still returns normally; the unit leaves exactly one
    error event and nothing saved or skipped; every later unit is looked at
    in its turn; and the error counter at the end is the counter before the
    unit, plus one for the unit, plus the errors of the later units, while
    the three counters together count every unit once. *)
Theorem error_isolation BASE env (before : list Z) (p_id : Z) (after : list Z)
    (e : exn) (w : world) :
  store (state_before_unit BASE env (before ++ p_id :: after)
           (S (length before)) w).2 !! p_file BASE p_id = None →
  (fetch_and_save BASE env (Z.of_nat (length (before ++ p_id :: after)))
     (Z.of_nat (S (length before))) p_id
     ((state_before_unit BASE env (before ++ p_id :: after)
         (S (length before)) w).1,
      log (EvExists (p_file BASE p_id) false)
        (state_before_unit BASE env (before ++ p_id :: after)
           (S (length before)) w).2)).1 = Raised e →
  ∃ s c w' evs_k evs_rest,
    s = state_before_unit BASE env (before ++ p_id :: after)
          (S (length before)) w ∧
    fetch_player_data_body BASE env (before ++ p_id :: after) (Counters 0 0 0, w)
      = (Returned tt, (c, w')) ∧
    trace w' = trace s.2 ++ evs_k ++ evs_rest ∧
    tally is_error evs_k = 1%Z ∧ tally is_saved evs_k = 0%Z ∧
    tally_skipped evs_k = 0%Z ∧
    (∀ q, q ∈ after → ∃ b, EvExists (p_file BASE q) b ∈ evs_rest) ∧
    error_count c = (error_count s.1 + 1 + tally is_error evs_rest)%Z ∧
    (saved_count c + skipped_count c + error_count c
     = Z.of_nat (length (before ++ p_id :: after)))%Z.
Proof.
  rewrite state_before_unit_loop, fetch_player_data_body_loop.
  set (n := Z.of_nat (length (before ++ p_id :: after))).
  replace (take (S (length before) - 1) (before ++ p_id :: after)) with before
    by (simpl; by rewrite Nat.sub_0_r, take_app_length).
  rewrite for_enumerate_app.
  destruct (save_players_run BASE env n before 1 (Counters 0 0 0)
              (World (store w) (trace w ++ [EvPrint (MsgSavingPlayers n)])))
    as (c1 & st1 & evs_b & Hb & Rb).
  rewrite Hb. simpl. intros Hpath Hraise.
  replace (Z.of_nat (S (length before)))
    with (1 + Z.of_nat (length before))%Z in Hraise by lia.
  destruct (save_player_raised BASE env n (1 + Z.of_nat (length before)) p_id e
              c1 (World st1 ((trace w ++ [EvPrint (MsgSavingPlayers n)]) ++ evs_b))
              Hpath Hraise)
    as (st2 & evs_k & Hk & Hk_error & Hk_saved & Hk_skipped).
  unfold bind at 1. simpl in Hk. rewrite Hk. cbv beta iota.
  destruct (save_players_run BASE env n after (1 + Z.of_nat (length before) + 1)
              (incr_error c1)
              (World st2
                 (((trace w ++ [EvPrint (MsgSavingPlayers n)]) ++ evs_b) ++ evs_k)))
    as (c3 & st3 & evs_r & Hr & Rr).
  rewrite Hr. unfold log. simpl.
  eexists _, c3, _,  evs_k,
    (evs_r ++ [EvPrint (MsgComplete (saved_count c3) (skipped_count c3)
                          (error_count c3))]).
  split; [reflexivity |]. split; [reflexivity |]. simpl.
  split; [by rewrite <- !app_assoc |].
  do 3 (split; [done |]).
  apply players_run_counters in Rb as (Hb1 & Hb2 & Hb3 & Hb4).
  pose proof (players_run_looked_at _ _ _ _ _ _ _ _ _ Rr) as Hlooked.
  apply players_run_counters in Rr as (Hr1 & Hr2 & Hr3 & Hr4).
  simpl in *. split; [| split].
  - intros q Hq. destruct (Hlooked q Hq) as [b Hb']. exists b.
    apply elem_of_app. by left.
  - rewrite tally_app, tally_cons. change (tally is_error []) with 0%Z.
    simpl. lia.
  - subst n. rewrite length_app. simpl length. lia.
Qed.

(** C6.  In a run of [fetch_player_data] every career frame that comes
    back is written, at the file of its player, with the "TOT" rows taken
    out: no row of what is written has the abbreviation "TOT", its rows are
    rows of the fetched frame in their order, and every selection of rows of
    the fetched frame without a "TOT" row is found, in order, in it; when
    the write leaves its file, that is what the store holds at the end.
    And a career file that is in the store after the run was there before,
    or it is such a filtered frame of this run. *)
Theorem stored_career_is_filtered BASE env player_ids w :
  (∀ p_id fetched,
     EvCareerStats p_id (inr fetched)
       ∈ events_since w (fetch_player_data BASE env player_ids w).2 →
     ∃ stored o,
       EvToJson (p_file BASE p_id) (CareerJson stored) o
         ∈ events_since w (fetch_player_data BASE env player_ids w).2 ∧
       (o = Written →
        store (fetch_player_data BASE env player_ids w).2 !! p_file BASE p_id
        = Some (CareerJson stored)) ∧
       Forall (λ row, TEAM_ABBREVIATION row ≠ JStr "TOT") stored ∧
       stored `sublist_of` fetched ∧
       ∀ rows, rows `sublist_of` fetched →
               Forall (λ row, TEAM_ABBREVIATION row ≠ JStr "TOT") rows →
               rows `sublist_of` stored) ∧
  (∀ path stored,
     store (fetch_player_data BASE env player_ids w).2 !! path
       = Some (CareerJson stored) →
     store w !! path = Some (CareerJson stored) ∨
     ∃ p_id fetched,
       EvCareerStats p_id (inr fetched)
         ∈ events_since w (fetch_player_data BASE env player_ids w).2 ∧
       path = p_file BASE p_id ∧
       Forall (λ row, TEAM_ABBREVIATION row ≠ JStr "TOT") stored ∧
       stored `sublist_of` fetched ∧
       ∀ rows, rows `sublist_of` fetched →
               Forall (λ row, TEAM_ABBREVIATION row ≠ JStr "TOT") rows →
               rows `sublist_of` stored).
Proof.
  unfold fetch_player_data.
  destruct (fetch_player_data_run BASE env player_ids w)
    as (c & st' & evs & H & P).
  rewrite H. simpl. rewrite events_since_app. split.
  - intros p fetched Hin.
    assert ((p, fetched) ∈ fetched_careers evs) as Hfetched.
    { apply fetched_careers_elem in Hin.
      unfold fetched_careers in *. simpl in Hin.
      rewrite omap_app in Hin. simpl in Hin. by rewrite app_nil_r in Hin. }
    destruct (players_run_written _ _ _ _ _ _ _ _ _ _ _ P Hfetched)
      as (o & Ho & Hst).
    exists (drop_TOT fetched), o.
    split; [right; apply elem_of_app; by left |]. split; [done |].
    split; [apply drop_TOT_clean |]. split; [apply sublist_filter |].
    apply drop_TOT_keeps.
  - intros path stored Hstored.
    destruct (players_run_stored _ _ _ _ _ _ _ _ _ path P)
      as [Hsame|(p & rows & Hin & -> & [Hfile|[bytes Hraw]])].
    + left. congruence.
    + right. exists p, rows. rewrite Hfile in Hstored. simplify_eq.
      split; [right; apply elem_of_app; by left |]. split; [done |].
      split; [apply drop_TOT_clean |]. split; [apply sublist_filter |].
      apply drop_TOT_keeps.
    + congruence.
Qed.

(** C8, amended.  The script never raises, and the index it builds maps a
    key to the name of the first entry for that key, in scan order, among
    the entries the scan reaches, whose identifier and name are both there
    and truthy; later entries for the key are dropped without a word.  For
    two records with player 7 named "A" and then "B" the index has "A". *)
Theorem first_usable_name_wins team_files k :
  ∃ s,
    generate_player_names team_files = (Returned tt, s) ∧
    dict_lookup (player_names s) k = first_usable_name k (scanned team_files) ∧
    dict_lookup (player_names (generate_player_names (two_records "A" "B")).2)
      (KInt 7) = Some (JStr "A").
Proof.
  unfold generate_player_names.
  destruct (generate_player_names_scanned team_files (IndexState [] []))
    as [rep H].
  rewrite H. eexists. split; [done |]. split; [| done]. simpl.
  by rewrite dict_lookup_foldl_remember.
Qed.

(** C10.  An entry whose identifier or name is missing or falsy leaves the
    index as it is (so does an entry without [PLAYER_ID], with the
    identifier 0, or with the empty name), and every entry of the built
    index has a truthy key and a truthy name and is the identifier and name
    of an entry of a scanned file: no key is [None], 0 or the empty string,
    no name is empty. *)
Theorem index_entries_are_usable team_files :
  (∀ player s, usable player = true ∨ (add_player player s).2 = s) ∧
  (∀ p_id name,
     usable (JObj [("PLAYER", JStr name)]) = false ∧
     usable (roster_entry 0 name) = false ∧
     usable (roster_entry p_id "") = false) ∧
  Forall
    (λ kv : json * json,
       truthy kv.1 = true ∧ truthy kv.2 = true ∧
       kv.1 ≠ JNull ∧ kv.1 ≠ JInt 0 ∧ kv.1 ≠ JStr "" ∧ kv.2 ≠ JStr "" ∧
       ∃ name items members,
         (name, inr (JArr items)) ∈ team_files ∧ JObj members ∈ items ∧
         kv.1 = dict_get "PLAYER_ID" members ∧
         kv.2 = dict_get "PLAYER" members)
    (player_names (generate_player_names team_files).2).
Proof.
  split; [| split].
  - intros player s. destruct (usable player) eqn:Husable; [by left | right].
    destruct (scannable player) eqn:Hscan.
    + rewrite add_player_scannable by done. unfold remember.
      rewrite Husable. by destruct s.
    + destruct (add_player_unscannable player s Hscan) as [e ->]. done.
  - intros p_id name. unfold usable. simpl. by rewrite andb_false_r.
  - unfold generate_player_names.
    destruct (generate_player_names_scanned team_files (IndexState [] []))
      as [rep H].
    rewrite H. simpl. apply Forall_forall. intros kv Hkv.
    apply foldl_remember_origin in Hkv
      as [?%elem_of_nil|(player & Hin & Husable & ->)]; [done |].
    apply scanned_listed in Hin as (name & items & members & Hfile & Hin & ->).
    unfold usable in Husable. apply andb_true_iff in Husable as [Hid Hname].
    simpl in *.
    repeat split; try done;
      try (intros Heq; rewrite Heq in *; done).
    by exists name, items, members.
Qed.

(** * Examples and counterexamples *)

Example season_str_2020 : season_str 2020 = "2020-21".
Proof. reflexivity. Qed.

Example season_str_1999 : season_str 1999 = "1999-00".
Proof. reflexivity. Qed.

Example valid_teams_demo : valid_teams demo_listing = [5%Z; 6%Z].
Proof. reflexivity. Qed.

Example team_file_demo : team_file "/data" 5 "2020-21" = "/data/teams/5_2020-21.json".
Proof. reflexivity. Qed.

Example drop_TOT_demo :
  drop_TOT demo_career
  = [CareerRow (JStr "ATL") [("GP", JInt 30)];
     CareerRow (JStr "BOS") [("GP", JInt 40)]].
Proof. reflexivity. Qed.

(** [1.0] and [True] are the key [1]. *)
Example one_is_one_key :
  hash_key (JFloat (S754_finite false 4503599627370496 (-52))) = Some (KInt 1) ∧
  hash_key (JBool true) = Some (KInt 1).
Proof. by vm_compute. Qed.

(** An entry that is not an object ends the scan of its file; what the file
    gave before stays in the index. *)
Example scan_stops_at_a_bad_entry :
  player_names
    (generate_player_names
       [("5_2020-21.json",
         inr (JArr [roster_entry 7 "A"; JNull; roster_entry 8 "B"]))]).2
  = [(JInt 7, JStr "A")].
Proof. reflexivity. Qed.

(** C1 as stated fails: a second run over the same range, with everything
    of the first run in the store, still calls the provider, once for the
    listing of each season. *)
Lemma second_run_calls_the_provider :
  ¬ (external_calls (events_since after_first_run after_second_run) = [] ∧
     store after_second_run = store after_first_run).
Proof. intros [Hcalls _]. vm_compute in Hcalls. discriminate. Qed.

(** C1, amended, at work: the seasons 2020 and 2021 of the demo provider,
    harvested twice from an empty store. *)
Lemma rerun_fetches_no_roster_example :
  Forall unit_succeeded (events_since fresh_world after_first_run) ∧
  listings (events_since after_first_run after_second_run)
    = listings (events_since fresh_world after_first_run) ∧
  ∃ w1 w2,
    w1 = (fetch_team_rosters "/data" demo_provider 2020 2021 fresh_world).2 ∧
    w2 = (fetch_team_rosters "/data" demo_provider 2020 2021 w1).2 ∧
    store w2 = store w1 ∧
    fetched_teams (events_since w1 w2) = [] ∧
    written_paths (events_since w1 w2) = [] ∧
    external_calls (events_since w1 w2) = listings (events_since w1 w2) ∧
    listed_seasons (events_since w1 w2) = season_str <$> seqZ 2020 (2021 + 1 - 2020).
Proof.
  assert (Forall unit_succeeded (events_since fresh_world after_first_run))
    as Hok by (vm_compute; repeat constructor).
  assert (listings (events_since after_first_run after_second_run)
          = listings (events_since fresh_world after_first_run))
    as Hsame by (vm_compute; reflexivity).
  split; [exact Hok |]. split; [exact Hsame |].
  exact (rerun_fetches_no_roster "/data" demo_provider 2020 2021 fresh_world
           Hok Hsame).
Defined.

(** C4 as stated fails: the listing call of a season comes back and the
    first roster call follows it without a pause. *)
Lemma listing_call_is_not_followed_by_a_pause :
  pause_after_every_fetch 800 false
    (events_since fresh_world
       (fetch_team_rosters "/data" demo_provider 2020 2020 fresh_world).2)
  = false.
Proof. vm_compute. reflexivity. Qed.

(** C5 as stated fails: a run that saves one player and a run that fails on
    one player hand back the same value, [None]; their counts are in what
    they print. *)
Lemma return_value_carries_no_counts :
  (fetch_player_data "/data" demo_provider [1%Z] fresh_world).1
    = (fetch_player_data "/data" demo_provider [2%Z] fresh_world).1 ∧
  last (trace (fetch_player_data "/data" demo_provider [1%Z] fresh_world).2)
    = Some (EvPrint (MsgComplete 1 0 0)) ∧
  last (trace (fetch_player_data "/data" demo_provider [2%Z] fresh_world).2)
    = Some (EvPrint (MsgComplete 0 0 1)).
Proof. vm_compute. done. Qed.

(** C8 as stated fails: when the first record has player 7 with an empty
    name and the second has "B", the index has "B", not the name met
    first. *)
Lemma empty_first_name_is_passed_over :
  dict_lookup (player_names (generate_player_names (two_records "" "B")).2)
    (KInt 7) = Some (JStr "B") ∧
  first_listed_name (KInt 7) (listed (two_records "" "B")) = Some (JStr "").
Proof. vm_compute. done. Qed.

(** C2 at work: of the players 1, 2, 3, 1 the second makes the provider
    raise. *)
Lemma error_isolation_example :
  store (state_before_unit "/data" demo_provider ([1%Z] ++ 2%Z :: [3%Z; 1%Z])
           (S (length [1%Z])) fresh_world).2 !! p_file "/data" 2 = None ∧
  (fetch_and_save "/data" demo_provider
     (Z.of_nat (length ([1%Z] ++ 2%Z :: [3%Z; 1%Z])))
     (Z.of_nat (S (length [1%Z]))) 2
     ((state_before_unit "/data" demo_provider ([1%Z] ++ 2%Z :: [3%Z; 1%Z])
         (S (length [1%Z])) fresh_world).1,
      log (EvExists (p_file "/data" 2) false)
        (state_before_unit "/data" demo_provider ([1%Z] ++ 2%Z :: [3%Z; 1%Z])
           (S (length [1%Z])) fresh_world).2)).1
  = Raised (Exception "timeout") ∧
  ∃ s c w' evs_k evs_rest,
    s = state_before_unit "/data" demo_provider ([1%Z] ++ 2%Z :: [3%Z; 1%Z])
          (S (length [1%Z])) fresh_world ∧
    fetch_player_data_body "/data" demo_provider ([1%Z] ++ 2%Z :: [3%Z; 1%Z])
      (Counters 0 0 0, fresh_world)
      = (Returned tt, (c, w')) ∧
    trace w' = trace s.2 ++ evs_k ++ evs_rest ∧
    tally is_error evs_k = 1%Z ∧ tally is_saved evs_k = 0%Z ∧
    tally_skipped evs_k = 0%Z ∧
    (∀ q, q ∈ [3%Z; 1%Z] → ∃ b, EvExists (p_file "/data" q) b ∈ evs_rest) ∧
    error_count c = (error_count s.1 + 1 + tally is_error evs_rest)%Z ∧
    (saved_count c + skipped_count c + error_count c
     = Z.of_nat (length ([1%Z] ++ 2%Z :: [3%Z; 1%Z])))%Z.
Proof.
  split; [vm_compute; reflexivity |]. split; [vm_compute; reflexivity |].
  apply (error_isolation "/data" demo_provider [1%Z] 2 [3%Z; 1%Z]
           (Exception "timeout") fresh_world);
    vm_compute; reflexivity.
Defined.

(** C6 at work: player 1 of the demo provider has a "TOT" row between his
    rows for ATL and BOS. *)
Lemma stored_career_is_filtered_example :
  EvCareerStats 1 (inr demo_career)
    ∈ events_since fresh_world
        (fetch_player_data "/data" demo_provider [1%Z; 2%Z] fresh_world).2 ∧
  store (fetch_player_data "/data" demo_provider [1%Z; 2%Z] fresh_world).2
    !! "/data/players/1.json"
  = Some (CareerJson [CareerRow (JStr "ATL") [("GP", JInt 30)];
                      CareerRow (JStr "BOS") [("GP", JInt 40)]]) ∧
  (∃ stored o,
     EvToJson (p_file "/data" 1) (CareerJson stored) o
       ∈ events_since fresh_world
           (fetch_player_data "/data" demo_provider [1%Z; 2%Z] fresh_world).2 ∧
     (o = Written →
      store (fetch_player_data "/data" demo_provider [1%Z; 2%Z] fresh_world).2
        !! p_file "/data" 1
      = Some (CareerJson stored)) ∧
     Forall (λ row, TEAM_ABBREVIATION row ≠ JStr "TOT") stored ∧
     stored `sublist_of` demo_career ∧
     ∀ rows, rows `sublist_of` demo_career →
             Forall (λ row, TEAM_ABBREVIATION row ≠ JStr "TOT") rows →
             rows `sublist_of` stored) ∧
  (store fresh_world !! "/data/players/1.json"
   = Some (CareerJson [CareerRow (JStr "ATL") [("GP", JInt 30)];
                       CareerRow (JStr "BOS") [("GP", JInt 40)]]) ∨
   ∃ p_id fetched,
     EvCareerStats p_id (inr fetched)
       ∈ events_since fresh_world
           (fetch_player_data "/data" demo_provider [1%Z; 2%Z] fresh_world).2 ∧
     "/data/players/1.json" = p_file "/data" p_id ∧
     Forall (λ row, TEAM_ABBREVIATION row ≠ JStr "TOT")
       [CareerRow (JStr "ATL") [("GP", JInt 30)];
        CareerRow (JStr "BOS") [("GP", JInt 40)]] ∧
     [CareerRow (JStr "ATL") [("GP", JInt 30)];
      CareerRow (JStr "BOS") [("GP", JInt 40)]] `sublist_of` fetched ∧
     ∀ rows, rows `sublist_of` fetched →
             Forall (λ row, TEAM_ABBREVIATION row ≠ JStr "TOT") rows →
             rows `sublist_of` [CareerRow (JStr "ATL") [("GP", JInt 30)];
                                CareerRow (JStr "BOS") [("GP", JInt 40)]]).
Proof.
  assert (EvCareerStats 1 (inr demo_career)
            ∈ events_since fresh_world
                (fetch_player_data "/data" demo_provider [1%Z; 2%Z]
                   fresh_world).2)
    as Hfetched by (vm_compute; do 2 right; left).
  assert (store (fetch_player_data "/data" demo_provider [1%Z; 2%Z] fresh_world).2
            !! "/data/players/1.json"
          = Some (CareerJson [CareerRow (JStr "ATL") [("GP", JInt 30)];
                              CareerRow (JStr "BOS") [("GP", JInt 40)]]))
    as Hstored by (vm_compute; reflexivity).
  split; [exact Hfetched |]. split; [exact Hstored |].
  destruct (stored_career_is_filtered "/data" demo_provider [1%Z; 2%Z] fresh_world)
    as [Hforward Hbackward].
  split; [exact (Hforward 1%Z demo_career Hfetched) |].
  exact (Hbackward "/data/players/1.json" _ Hstored).
Defined.

(** The provider lists the four players for 2020-21 and raises on the
    listing of 2021-22; every roster call raises, so no roster is stored.
    The set returned holds the four players, the free agent 2 among them. *)
Lemma identifier_set_is_union_of_listings_example :
  CommonAllPlayers rosterless_provider
    [EvPrint (MsgProcessing "2020-21")] "2020-21" = inr demo_listing ∧
  ∃ ids w',
    fetch_team_rosters "/data" rosterless_provider 2020 2021 fresh_world
      = (Returned ids, w') ∧
    store w' = ∅ ∧
    fetched_teams (trace w') = [5; 6]%Z ∧
    listed_seasons (trace w') = ["2020-21"; "2021-22"] ∧
    (∀ p_id, p_id ∈ ids ↔ p_id ∈ [1; 2; 3; 4]%Z).
Proof.
  split; [reflexivity |].
  destruct (identifier_set_is_union_of_listings
              "/data" rosterless_provider 2020 2021 fresh_world)
    as (_ & ids & w' & Hrun & Hseasons & Hasked & Hids).
  exists ids, w'. split; [exact Hrun |].
  assert (Hw : w' = (fetch_team_rosters "/data" rosterless_provider
                       2020 2021 fresh_world).2) by (by rewrite Hrun).
  vm_compute in Hw. subst w'.
  split; [reflexivity |]. split; [reflexivity |]. split; [reflexivity |].
  intros p. rewrite Hids. clear. split.
  - intros (season & rows & Hin & Hp). vm_compute in Hin.
    repeat (apply elem_of_cons in Hin as [Hin|Hin]; [simplify_eq; try exact Hp |]).
    by apply elem_of_nil in Hin.
  - intros Hp. exists "2020-21", demo_listing. split; [| exact Hp].
    vm_compute. apply elem_of_cons. right. apply elem_of_cons. by left.
Defined.

(** * Further properties *)

(** ** Strings *)

Lemma string_app_cons (c : ascii) (a b : string) :
  String c a +:+ b = String c (a +:+ b).
Proof. reflexivity. Qed.

Lemma string_app_assoc (a b c : string) : (a +:+ b) +:+ c = a +:+ (b +:+ c).
Proof.
  induction a as [|x a IH]; [done |]. rewrite !string_app_cons. by f_equal.
Qed.

Lemma string_app_length (a b : string) :
  String.length (a +:+ b) = String.length a + String.length b.
Proof.
  induction a as [|x a IH]; [done |]. rewrite string_app_cons. simpl.
  by f_equal.
Qed.

Lemma string_app_inj_r (a b c : string) : a +:+ c = b +:+ c → a = b.
Proof.
  revert b. induction a as [|x a IH]; intros [|y b] Heq.
  - done.
  - apply (f_equal String.length) in Heq.
    rewrite !string_app_length in Heq. simpl in Heq. lia.
  - apply (f_equal String.length) in Heq.
    rewrite !string_app_length in Heq. simpl in Heq. lia.
  - rewrite !string_app_cons in Heq. injection Heq as -> Heq.
    f_equal. by apply IH.
Qed.

Lemma char_free_prefix_inj (c : ascii) (a b x y : string) :
  char_free c a → char_free c b →
  a +:+ String c x = b +:+ String c y → a = b ∧ x = y.
Proof.
  revert b. induction a as [|c1 a IH]; intros [|c2 b];
    rewrite ?string_app_cons; simpl.
  - by intros _ _ [= ->].
  - intros _ [Hc2 _] [= <- _]. done.
  - intros [Hc1 _] _ [= -> _]. done.
  - intros [_ Ha] [_ Hb] [= -> Heq].
    destruct (IH b Ha Hb Heq) as [-> ->]. done.
Qed.

Lemma pretty_N_go_char_free (c : ascii) (x : N) (s : string) :
  (∀ d, pretty_N_char d ≠ c) →
  char_free c s → char_free c (pretty_N_go x s).
Proof.
  intros Hc. revert s. induction (N.lt_wf_0 x) as [x _ IH]; intros s Hs.
  destruct (decide (0 < x)%N) as [Hpos|Hzero].
  - rewrite pretty_N_go_step by done. apply IH; [by apply N.div_lt |].
    split; [apply Hc | done].
  - replace x with 0%N by lia. by rewrite pretty_N_go_0.
Qed.

Lemma pretty_N_go_app (x : N) (s : string) :
  pretty_N_go x s = pretty_N_go x "" +:+ s.
Proof.
  revert s. induction (N.lt_wf_0 x) as [x _ IH]; intros s.
  destruct (decide (0 < x)%N) as [Hpos|Hzero].
  - rewrite (pretty_N_go_step x s), (pretty_N_go_step x "") by done.
    rewrite (IH _ (N.div_lt x 10 Hpos eq_refl) (String _ s)).
    rewrite (IH _ (N.div_lt x 10 Hpos eq_refl) (String _ "")).
    by rewrite string_app_assoc.
  - replace x with 0%N by lia. by rewrite !pretty_N_go_0.
Qed.

Lemma pretty_positive_unfold (p : positive) :
  pretty (Z.pos p) = pretty_N_go (N.pos p) "".
Proof. reflexivity. Qed.

Lemma pretty_Z_char_free (c : ascii) (z : Z) :
  (∀ d, pretty_N_char d ≠ c) → c ≠ "-"%char → char_free c (pretty z).
Proof.
  intros Hc Hdash. destruct z as [|p|p].
  - split; [apply (Hc 0%N) | done].
  - rewrite pretty_positive_unfold. by apply pretty_N_go_char_free.
  - split; [done |].
    change (char_free c (pretty_N_go (N.pos p) "")).
    by apply pretty_N_go_char_free.
Qed.

Lemma digits_no_dash d : pretty_N_char d ≠ "-"%char.
Proof. unfold pretty_N_char. by repeat case_match. Qed.

Lemma digits_no_dot d : pretty_N_char d ≠ "."%char.
Proof. unfold pretty_N_char. by repeat case_match. Qed.

Lemma pretty_N_go_nonempty (x : N) : (0 < x)%N → pretty_N_go x "" ≠ "".
Proof.
  intros Hpos. rewrite pretty_N_go_step, pretty_N_go_app by done.
  by destruct (pretty_N_go (x `div` 10) "").
Qed.

Lemma pretty_N_go_two_digits (x : N) :
  (10 ≤ x)%N →
  pretty_N_go x ""
  = pretty_N_go (x / 100) ""
      +:+ String (pretty_N_char (x / 10 mod 10))
            (String (pretty_N_char (x mod 10)) "").
Proof.
  intros Hx. rewrite pretty_N_go_step by lia.
  assert (0 < x / 10)%N by (apply N.div_str_pos; lia).
  rewrite pretty_N_go_step by done.
  rewrite pretty_N_go_app. do 2 f_equal.
  rewrite N.Div0.div_div. done.
Qed.

Lemma substring_app_length (a b : string) (n : nat) :
  substring (String.length a) n (a +:+ b) = substring 0 n b.
Proof.
  induction a as [|x a IH]; [done |]. rewrite string_app_cons. apply IH.
Qed.

Lemma last_two_app (a : string) (c1 c2 : ascii) :
  last_two (a +:+ String c1 (String c2 "")) = String c1 (String c2 "").
Proof.
  unfold last_two. rewrite string_app_length. simpl String.length.
  replace (String.length a + 2 - 2) with (String.length a) by lia.
  by rewrite substring_app_length.
Qed.

(** ** Season labels *)

Lemma pretty_negative_unfold (p : positive) :
  pretty (Z.neg p) = String "-" (pretty_N_go (N.pos p) "").
Proof. reflexivity. Qed.

Lemma pretty_nonneg_dash_free (z : Z) : (0 ≤ z)%Z → char_free "-" (pretty z).
Proof.
  intros Hz. destruct z as [|p|p]; [done | | lia].
  rewrite pretty_positive_unfold.
  by apply pretty_N_go_char_free; [apply digits_no_dash |].
Qed.

Lemma pretty_nonneg_no_sign (z : Z) (a a' : string) :
  (0 ≤ z)%Z → pretty z +:+ String "-" a ≠ String "-" a'.
Proof.
  intros Hz Heq. pose proof (pretty_nonneg_dash_free z Hz) as Hfree.
  destruct z as [|p|p]; [done | | lia].
  rewrite pretty_positive_unfold in *.
  pose proof (pretty_N_go_nonempty (N.pos p) eq_refl) as Hne.
  destruct (pretty_N_go (N.pos p) "") as [|c rest]; [done |].
  rewrite string_app_cons in Heq. destruct Hfree as [Hc _].
  by injection Heq as -> _.
Qed.

Lemma season_str_year (y y' : Z) : season_str y = season_str y' → y = y'.
Proof.
  unfold season_str. intros Heq.
  change (pretty y +:+ String "-" (last_two (pretty (y + 1)%Z))
          = pretty y' +:+ String "-" (last_two (pretty (y' + 1)%Z))) in Heq.
  destruct (decide (0 ≤ y)%Z) as [Hy|Hy], (decide (0 ≤ y')%Z) as [Hy'|Hy'].
  - apply (inj pretty).
    by destruct (char_free_prefix_inj "-" _ _ _ _
                   (pretty_nonneg_dash_free y Hy)
                   (pretty_nonneg_dash_free y' Hy') Heq).
  - destruct y' as [|p'|p']; [lia.. |].
    rewrite pretty_negative_unfold, string_app_cons in Heq.
    by apply pretty_nonneg_no_sign in Heq.
  - destruct y as [|p|p]; [lia.. |].
    rewrite pretty_negative_unfold, string_app_cons in Heq.
    symmetry in Heq. by apply pretty_nonneg_no_sign in Heq.
  - destruct y as [|p|p]; [lia.. |]. destruct y' as [|p'|p']; [lia.. |].
    rewrite !pretty_negative_unfold, !string_app_cons in Heq.
    injection Heq as Heq.
    destruct (char_free_prefix_inj "-" _ _ _ _
                (pretty_N_go_char_free "-" (N.pos p) "" digits_no_dash I)
                (pretty_N_go_char_free "-" (N.pos p') "" digits_no_dash I) Heq)
      as [Hp _].
    rewrite <- !pretty_positive_unfold in Hp. apply (inj pretty) in Hp.
    by injection Hp as ->.
Qed.

Lemma season_str_small (year : Z) :
  (0 ≤ year < 9)%Z → last_two (pretty (year + 1)%Z) = pretty (year + 1)%Z.
Proof.
  intros Hy.
  assert (year = 0 ∨ year = 1 ∨ year = 2 ∨ year = 3 ∨ year = 4 ∨ year = 5
          ∨ year = 6 ∨ year = 7 ∨ year = 8)%Z as Hcases by lia.
  by destruct Hcases as [->|[->|[->|[->|[->|[->|[->|[->| ->]]]]]]]].
Qed.

(** X1.  The label of a season from year 9 on is the year, a dash and the
    last two decimal digits of the next year ("1999-00", "2020-21"); for the
    years 0 to 8 the part after the dash is the single digit of the next
    year, without padding. *)
Theorem season_label_format (year : Z) :
  (0 ≤ year)%Z →
  season_str year
  = pretty year +:+ "-"
      +:+ (if (9 <=? year)%Z then two_digits (year + 1)
           else pretty (year + 1)%Z).
Proof.
  intros Hy. unfold season_str. do 2 f_equal.
  destruct (Z.leb_spec 9 year) as [Hbig|Hsmall];
    [| apply season_str_small; lia].
  destruct (year + 1)%Z as [|p|p] eqn:Hp; [lia | | lia].
  rewrite pretty_positive_unfold, pretty_N_go_two_digits by lia.
  by rewrite last_two_app.
Qed.

(** X2.  Different years have different season labels, whatever their
    sign. *)
Theorem season_labels_differ (year year' : Z) :
  year ≠ year' → season_str year ≠ season_str year'.
Proof. intros Hne Heq. by apply Hne, season_str_year. Qed.

(** ** Keys *)

Lemma team_file_unit BASE t t' season season' :
  team_file BASE t season = team_file BASE t' season' →
  t = t' ∧ season = season'.
Proof.
  intros Heq. pose proof (team_file_team _ _ _ _ _ Heq) as ->.
  split; [done |]. unfold team_file in Heq.
  apply (inj (String.app BASE)), (inj (String.app "/teams/")),
    (inj (String.app (pretty t'))), (inj (String.app "_")) in Heq.
  by apply string_app_inj_r in Heq.
Qed.

Lemma p_file_player BASE p p' : p_file BASE p = p_file BASE p' → p = p'.
Proof.
  unfold p_file. intros Heq.
  apply (inj (String.app BASE)), (inj (String.app "/players/")) in Heq.
  apply string_app_inj_r in Heq. by apply (inj pretty).
Qed.

Lemma team_file_not_p_file BASE t season p :
  team_file BASE t season ≠ p_file BASE p.
Proof.
  unfold team_file, p_file. intros Heq.
  apply (inj (String.app BASE)) in Heq. by injection Heq.
Qed.

(** X3.  The files of two work units are the same only when the units are:
    a team and year determine the roster file, a player the career file,
    and no roster file is a career file. *)
Theorem work_units_have_their_own_files BASE :
  (∀ t t' year year',
     team_file BASE t (season_str year) = team_file BASE t' (season_str year')
     ↔ t = t' ∧ year = year') ∧
  (∀ p p', p_file BASE p = p_file BASE p' ↔ p = p') ∧
  (∀ t season p, team_file BASE t season ≠ p_file BASE p).
Proof.
  split; [| split].
  - intros t t' y y'. split; [| by intros [-> ->]].
    intros [-> Hs]%team_file_unit. by apply season_str_year in Hs.
  - intros p p'. split; [apply p_file_player | by intros ->].
  - apply team_file_not_p_file.
Qed.

(** ** The roster harvester, further *)

(** X4.  With the last year before the first, [fetch_team_rosters] does
    nothing at all: it returns the empty set and leaves the world, store
    and trace, as it found it. *)
Theorem empty_range_does_nothing BASE env after_year current_year w :
  (current_year < after_year)%Z →
  fetch_team_rosters BASE env after_year current_year w = (Returned ∅, w).
Proof.
  intros Hlt. unfold fetch_team_rosters, fetch_team_rosters_body.
  rewrite seqZ_nil by lia. by destruct w.
Qed.

Lemma roster_unit_fetched path t season st st' evs :
  roster_unit path t season st st' evs →
  fetched_teams evs = if decide (st !! path = None) then [t] else [].
Proof.
  destruct 1 as [[f Hin]|e Hout|r Hout|r Hout|r e lb Hout];
    case_decide; try done; congruence.
Qed.

Lemma roster_unit_frame path t season st st' evs (path' : string) :
  roster_unit path t season st st' evs →
  path' ≠ path → st' !! path' = st !! path'.
Proof.
  destruct 1 as [Hin|e Hout|r Hout|r Hout|r e [bytes|] Hout]; intros Hne;
    simpl; by rewrite ?lookup_insert_ne.
Qed.

Lemma teams_run_missing BASE season ts st st' evs (st0 : gmap string file) :
  teams_run BASE season ts st st' evs →
  NoDup ts →
  (∀ t, t ∈ ts → st !! team_file BASE t season = st0 !! team_file BASE t season) →
  fetched_teams evs
  = filter (λ t, st0 !! team_file BASE t season = None) ts.
Proof.
  induction 1 as [|t ts st st1 st2 evs1 evs2 U T IH]; intros Hdup Hsame;
    [done |].
  apply NoDup_cons in Hdup as [Hnew Hdup].
  replace (fetched_teams (evs1 ++ evs2))
    with (fetched_teams evs1 ++ fetched_teams evs2)
    by (unfold fetched_teams; by rewrite omap_app).
  rewrite (roster_unit_fetched _ _ _ _ _ _ U), IH; [| done |].
  - rewrite filter_cons, Hsame by left. by case_decide.
  - intros t' Ht'. rewrite <- Hsame by (by right).
    eapply roster_unit_frame; [done |].
    intros [-> _]%team_file_unit. done.
Qed.

(** X5.  In a season whose listing comes back, the rosters asked for are
    those of the teams of the listing whose file the store lacks when the
    season begins, in the order of the listing; nothing is asked for when
    the listing raises. *)
Theorem season_fetches_the_missing_rosters BASE env year ids w :
  fetched_teams (events_since w (process_season BASE env year (ids, w)).2.2)
  = match
      CommonAllPlayers env
        (trace w ++ [EvPrint (MsgProcessing (season_str year))])
        (season_str year)
    with
    | inr rows =>
        filter (λ t, store w !! team_file BASE t (season_str year) = None)
          (valid_teams rows)
    | inl _ => []
    end.
Proof.
  unfold process_season. set (season := season_str year).
  unfold bind at 1, print, emit, log, try_except. simpl.
  unfold bind at 1, get_all_players, answer, log. simpl.
  destruct (CommonAllPlayers env _ season) as [e|rows] eqn:Hlist; simpl.
  { unfold events_since. simpl. rewrite <- !app_assoc.
    by rewrite drop_app_length. }
  unfold bind at 1.
  destruct (save_rosters_run BASE env season (valid_teams rows) ids
              (World (store w)
                 ((trace w ++ [EvPrint (MsgProcessing season)])
                    ++ [EvAllPlayers season (inr rows)])))
    as (st' & evs & H & T).
  rewrite H. unfold set_locals, events_since. simpl.
  rewrite <- !app_assoc, drop_app_length. simpl.
  apply (teams_run_missing _ _ _ _ _ _ (store w) T); [| done].
  apply unique_from_NoDup.
Qed.

Lemma roster_unit_looked_at path t season st st' evs :
  roster_unit path t season st st' evs → ∃ b, EvExists path b ∈ evs.
Proof. destruct 1; eexists; by left. Qed.

Lemma teams_run_looked_at BASE season ts st st' evs :
  teams_run BASE season ts st st' evs →
  ∀ t, t ∈ ts → ∃ b, EvExists (team_file BASE t season) b ∈ evs.
Proof.
  induction 1 as [|t ts st st1 st2 evs1 evs2 U _ IH]; intros t' Ht'.
  { by apply elem_of_nil in Ht'. }
  apply elem_of_cons in Ht' as [->|Ht'].
  - apply roster_unit_looked_at in U as [b Hb]. exists b.
    apply elem_of_app. by left.
  - destruct (IH t' Ht') as [b Hb]. exists b. apply elem_of_app. by right.
Qed.

Lemma season_run_listing BASE y ids st ids' st' evs season rows :
  season_run BASE y ids st ids' st' evs →
  EvAllPlayers season (inr rows) ∈ evs →
  season = season_str y ∧
  ∃ tevs, evs = EvPrint (MsgProcessing (season_str y))
                  :: EvAllPlayers (season_str y) (inr rows) :: tevs ∧
          teams_run BASE (season_str y) (valid_teams rows) st st' tevs.
Proof.
  destruct 1 as [e|rows' st' evs T]; intros Hin.
  - rewrite !elem_of_cons in Hin.
    destruct Hin as [?|[?|[?|?%elem_of_nil]]]; done.
  - apply listings_elem in Hin. unfold listings in Hin.
    pose proof (teams_run_no_listing _ _ _ _ _ _ T) as [HT _].
    unfold listings in HT.
    rewrite filter_cons_False, filter_cons_True, HT in Hin by (simpl; tauto).
    apply list_elem_of_singleton in Hin. simplify_eq.
    split; [done |]. by exists evs.
Qed.

Lemma years_run_looked_at BASE ys ids st ids' st' evs season rows t :
  years_run BASE ys ids st ids' st' evs →
  EvAllPlayers season (inr rows) ∈ evs → t ∈ valid_teams rows →
  ∃ b, EvExists (team_file BASE t season) b ∈ evs.
Proof.
  induction 1 as [|y ys ids ids1 ids2 st st1 st2 evs1 evs2 S Y IH];
    intros Hin Ht.
  { by apply elem_of_nil in Hin. }
  apply elem_of_app in Hin as [Hin|Hin].
  - destruct (season_run_listing _ _ _ _ _ _ _ _ _ S Hin)
      as (-> & tevs & -> & T).
    destruct (teams_run_looked_at _ _ _ _ _ _ T t Ht) as [b Hb].
    exists b. apply elem_of_app. left. by do 2 right.
  - destruct (IH Hin Ht) as [b Hb]. exists b. apply elem_of_app. by right.
Qed.

(** X6.  Every team of every listing that comes back is looked at in the
    store, whatever went wrong with the teams before it: a roster call or a
    write that raises does not end the season. *)
Theorem every_listed_team_is_looked_at BASE env after_year current_year w
    season rows t :
  EvAllPlayers season (inr rows)
    ∈ events_since w (fetch_team_rosters BASE env after_year current_year w).2 →
  t ∈ valid_teams rows →
  ∃ b, EvExists (team_file BASE t season) b
         ∈ events_since w
             (fetch_team_rosters BASE env after_year current_year w).2.
Proof.
  destruct (fetch_team_rosters_run BASE env after_year current_year w)
    as (ids & st' & evs & H & Y).
  rewrite H. simpl. rewrite events_since_app. by eapply years_run_looked_at.
Qed.

Lemma roster_unit_stored path0 t season st st' evs (path : string) (f : file) :
  roster_unit path0 t season st st' evs →
  st' !! path = Some f →
  st !! path = Some f ∨
  path = path0 ∧
  ((∃ roster, EvTeamRoster t season (inr roster) ∈ evs ∧ f = RosterJson roster) ∨
   (∃ bytes, f = RawFile bytes ∧ path ∈ created_paths evs)).
Proof.
  destruct 1 as [Hin|e Hout|r Hout|r Hout|r e [bytes|] Hout]; intros Hf;
    try (by left).
  - destruct (decide (path = path0)) as [->|Hne];
      [| left; by rewrite lookup_insert_ne in Hf].
    rewrite lookup_insert_eq in Hf. simplify_eq. right. split; [done |].
    left. exists r. split; [do 2 right; left | done].
  - simpl in Hf. destruct (decide (path = path0)) as [->|Hne];
      [| left; by rewrite lookup_insert_ne in Hf].
    rewrite lookup_insert_eq in Hf. simplify_eq. right. split; [done |].
    right. exists bytes. split; [done | left].
Qed.

Lemma created_paths_app evs1 evs2 :
  created_paths (evs1 ++ evs2) = created_paths evs1 ++ created_paths evs2.
Proof. unfold created_paths. by rewrite omap_app. Qed.

Lemma teams_run_stored BASE season ts st st' evs (path : string) (f : file) :
  teams_run BASE season ts st st' evs →
  st' !! path = Some f →
  st !! path = Some f ∨
  (∃ t roster,
     EvTeamRoster t season (inr roster) ∈ evs ∧
     path = team_file BASE t season ∧ f = RosterJson roster) ∨
  (∃ bytes, f = RawFile bytes ∧ path ∈ created_paths evs).
Proof.
  induction 1 as [|t ts st st1 st2 evs1 evs2 U _ IH]; intros Hf; [by left |].
  rewrite created_paths_app. setoid_rewrite elem_of_app.
  destruct (IH Hf) as [Hf1|[(t' & r & Hin & -> & ->)|(bytes & -> & Hin)]].
  - destruct (roster_unit_stored _ _ _ _ _ _ path f U Hf1)
      as [?|(-> & [(r & Hin & ->)|(bytes & -> & Hin)])]; [by left | |].
    + right. left. exists t, r. eauto.
    + right. right. exists bytes. eauto.
  - right. left. exists t', r. eauto.
  - right. right. exists bytes. eauto.
Qed.

Lemma years_run_stored BASE ys ids st ids' st' evs (path : string) (f : file) :
  years_run BASE ys ids st ids' st' evs →
  st' !! path = Some f →
  st !! path = Some f ∨
  (∃ t season roster,
     EvTeamRoster t season (inr roster) ∈ evs ∧
     path = team_file BASE t season ∧ f = RosterJson roster) ∨
  (∃ bytes, f = RawFile bytes ∧ path ∈ created_paths evs).
Proof.
  induction 1 as [|y ys ids ids1 ids2 st st1 st2 evs1 evs2 S _ IH]; intros Hf;
    [by left |].
  rewrite created_paths_app. setoid_rewrite elem_of_app.
  destruct (IH Hf) as [Hf1|[(t & s & r & Hin & -> & ->)|(bytes & -> & Hin)]].
  - destruct S as [e|rows st1 tevs T]; [by left |].
    destruct (teams_run_stored _ _ _ _ _ _ path f T Hf1)
      as [?|[(t & r & Hin & -> & ->)|(bytes & -> & Hin)]]; [by left | |].
    + right. left. exists t, (season_str y), r.
      split; [left; by do 2 right | done].
    + right. right. exists bytes. split; [done |]. by left.
  - right. left. exists t, s, r. eauto.
  - right. right. exists bytes. eauto.
Qed.

(** X7.  A file that is in the store after a run of [fetch_team_rosters]
    was there before the run, or it is the roster that the provider
    returned in this run for the team and season of its path, as it came,
    or it is what a write that raised has left behind. *)
Theorem stored_roster_is_as_fetched BASE env after_year current_year w
    (path : string) (f : file) :
  store (fetch_team_rosters BASE env after_year current_year w).2 !! path
    = Some f →
  store w !! path = Some f ∨
  (∃ t season roster,
     EvTeamRoster t season (inr roster)
       ∈ events_since w
           (fetch_team_rosters BASE env after_year current_year w).2 ∧
     path = team_file BASE t season ∧ f = RosterJson roster) ∨
  (∃ bytes,
     f = RawFile bytes ∧
     path ∈ created_paths
              (events_since w
                 (fetch_team_rosters BASE env after_year current_year w).2)).
Proof.
  destruct (fetch_team_rosters_run BASE env after_year current_year w)
    as (ids & st' & evs & H & Y).
  rewrite H. simpl. rewrite events_since_app. by eapply years_run_stored.
Qed.

(** ** The player harvester, further *)

Lemma fetched_players_reports idx n p e errors :
  fetched_players (error_report p e errors) = [] ∧
  fetched_players (progress_report idx n p ++ [EvSleep 700]) = [].
Proof. unfold error_report, progress_report. by repeat case_match. Qed.

Lemma player_unit_fetched path n idx p c st c' st' evs :
  player_unit path n idx p c st c' st' evs →
  fetched_players evs = if decide (st !! path = None) then [p] else [].
Proof.
  destruct 1 as [[f Hin]|e Hout|rows Hout|rows Hout|rows e lb Hout];
    case_decide; try congruence; try done.
  - change (fetched_players (_ :: ?e2 :: ?evs))
      with (p :: fetched_players evs).
    by rewrite (proj1 (fetched_players_reports idx n p e _)).
  - change (fetched_players ([_; ?e2; _; _] ++ ?evs))
      with (p :: fetched_players evs).
    by rewrite (proj2 (fetched_players_reports idx n p (Exception "") 0)).
  - change (fetched_players (_ :: ?e2 :: _ :: ?evs))
      with (p :: fetched_players evs).
    by rewrite (proj1 (fetched_players_reports idx n p e _)).
Qed.

Lemma player_unit_frame path n idx p c st c' st' evs (path' : string) :
  player_unit path n idx p c st c' st' evs →
  path' ≠ path → st' !! path' = st !! path'.
Proof.
  destruct 1 as [Hin|e Hout|r Hout|r Hout|r e [bytes|] Hout]; intros Hne;
    simpl; by rewrite ?lookup_insert_ne.
Qed.

Lemma players_run_missing BASE n idx ps c st c' st' evs
    (st0 : gmap string file) :
  players_run BASE n idx ps c st c' st' evs →
  NoDup ps →
  (∀ p, p ∈ ps → st !! p_file BASE p = st0 !! p_file BASE p) →
  fetched_players evs = filter (λ p, st0 !! p_file BASE p = None) ps.
Proof.
  induction 1 as [|idx p ps c c1 c2 st st1 st2 evs1 evs2 U R IH];
    intros Hdup Hsame; [done |].
  apply NoDup_cons in Hdup as [Hnew Hdup].
  replace (fetched_players (evs1 ++ evs2))
    with (fetched_players evs1 ++ fetched_players evs2)
    by (unfold fetched_players; by rewrite omap_app).
  rewrite (player_unit_fetched _ _ _ _ _ _ _ _ _ U), IH; [| done |].
  - rewrite filter_cons, Hsame by left. by case_decide.
  - intros p' Hp'. rewrite <- Hsame by (by right).
    eapply player_unit_frame; [done |].
    intros ->%p_file_player. done.
Qed.

(** X8.  When no identifier comes twice, [fetch_player_data] asks the
    provider for the players whose career file the store lacks when the run
    begins, for each of them once, in the order of the input, and for no
    one else. *)
Theorem run_fetches_the_missing_careers BASE env player_ids w :
  NoDup player_ids →
  fetched_players (events_since w (fetch_player_data BASE env player_ids w).2)
  = filter (λ p, store w !! p_file BASE p = None) player_ids.
Proof.
  intros Hdup. unfold fetch_player_data.
  destruct (fetch_player_data_run BASE env player_ids w)
    as (c & st' & evs & H & P).
  rewrite H. simpl. rewrite events_since_app.
  rewrite <- (players_run_missing _ _ _ _ _ _ _ _ _ (store w) P Hdup)
    by done.
  unfold fetched_players. simpl. rewrite omap_app. simpl. apply app_nil_r.
Qed.

Lemma tally_nonneg kind evs : (0 ≤ tally kind evs)%Z.
Proof. unfold tally. lia. Qed.

Lemma player_unit_no_error path n idx p c st c' st' evs :
  player_unit path n idx p c st c' st' evs →
  tally is_error evs = 0%Z → is_Some (st' !! path).
Proof.
  destruct 1 as [Hin|e Hout|rows Hout|rows Hout|rows e lb Hout];
    repeat tally_simpl; intros Hzero;
    pose proof (tally_nonneg is_error []); try lia; try done.
  by rewrite lookup_insert_eq.
Qed.

Lemma players_run_no_error BASE n idx ps c st c' st' evs :
  players_run BASE n idx ps c st c' st' evs →
  tally is_error evs = 0%Z →
  ∀ p, p ∈ ps → is_Some (st' !! p_file BASE p).
Proof.
  induction 1 as [|idx p ps c c1 c2 st st1 st2 evs1 evs2 U R IH];
    intros Hzero q Hq.
  { by apply elem_of_nil in Hq. }
  rewrite tally_app in Hzero.
  pose proof (tally_nonneg is_error evs1).
  pose proof (tally_nonneg is_error evs2).
  apply elem_of_cons in Hq as [->|Hq]; [| apply IH; [lia | done]].
  eapply lookup_weaken_is_Some; [| by eapply players_run_grows].
  eapply player_unit_no_error; [done | lia].
Qed.

Lemma players_run_all_present BASE n idx ps c st c' st' evs :
  players_run BASE n idx ps c st c' st' evs →
  (∀ p, p ∈ ps → is_Some (st !! p_file BASE p)) →
  st' = st ∧
  evs = (λ p, EvExists (p_file BASE p) true) <$> ps ∧
  c' = Counters (saved_count c) (error_count c)
         (skipped_count c + Z.of_nat (length ps)).
Proof.
  induction 1 as [|idx p ps c c1 c2 st st1 st2 evs1 evs2 U R IH]; intros Hall.
  { split; [done |]. split; [done |]. destruct c. simpl. f_equal. lia. }
  assert (is_Some (st !! p_file BASE p)) as [f Hf] by (apply Hall; left).
  destruct U as [Hin|e Hout|rows Hout|rows Hout|rows e lb Hout];
    try congruence.
  destruct IH as (-> & -> & ->); [intros; apply Hall; by right |].
  split; [done |]. split; [done |]. simpl. f_equal. lia.
Qed.

(** X9.  After a run of [fetch_player_data] in which no unit went wrong, a
    second run over the same identifiers sends nothing to the provider and
    writes nothing: it prints its first line, finds every file in place,
    and reports all units as skipped; the store stays as it is. *)
Theorem rerun_of_players_is_silent BASE env player_ids w :
  tally is_error
    (events_since w (fetch_player_data BASE env player_ids w).2) = 0%Z →
  ∃ w1 w2,
    w1 = (fetch_player_data BASE env player_ids w).2 ∧
    fetch_player_data BASE env player_ids w1 = (Returned tt, w2) ∧
    store w2 = store w1 ∧
    events_since w1 w2
    = EvPrint (MsgSavingPlayers (Z.of_nat (length player_ids)))
        :: ((λ p, EvExists (p_file BASE p) true) <$> player_ids)
        ++ [EvPrint (MsgComplete 0 (Z.of_nat (length player_ids)) 0)].
Proof.
  unfold fetch_player_data.
  destruct (fetch_player_data_run BASE env player_ids w)
    as (c1 & st1 & evs1 & H1 & P1).
  rewrite H1. simpl. rewrite events_since_app. intros Hzero.
  assert (tally is_error evs1 = 0%Z) as Hzero1.
  { rewrite tally_cons, tally_app, tally_cons in Hzero. simpl in Hzero.
    change (tally is_error []) with 0%Z in Hzero. lia. }
  set (w1 := World st1 _).
  destruct (fetch_player_data_run BASE env player_ids w1)
    as (c2 & st2 & evs2 & H2 & P2).
  destruct (players_run_all_present _ _ _ _ _ _ _ _ _ P2) as (-> & -> & ->).
  { by apply (players_run_no_error _ _ _ _ _ _ _ _ _ P1). }
  eexists w1, _. split; [done |]. rewrite H2. simpl.
  split; [done |]. split; [done |].
  by rewrite events_since_app.
Qed.

(** ** What the player harvester prints about errors *)

Lemma player_unit_reports path n idx p c st c' st' evs :
  player_unit path n idx p c st c' st' evs →
  (0 ≤ error_count c)%Z →
  (error_count c ≤ error_count c')%Z ∧
  (tally is_detailed_report evs
   ≤ Z.min 10 (error_count c') - Z.min 10 (error_count c))%Z ∧
  (tally is_suppression_notice evs
   ≤ (Z.min 11 (error_count c') - Z.min 10 (error_count c'))
     - (Z.min 11 (error_count c) - Z.min 10 (error_count c)))%Z.
Proof.
  intros U Hc.
  assert (∀ e,
    (tally is_detailed_report (error_report p e (error_count c + 1))
     ≤ Z.min 10 (error_count c + 1) - Z.min 10 (error_count c))%Z ∧
    (tally is_suppression_notice (error_report p e (error_count c + 1))
     ≤ (Z.min 11 (error_count c + 1) - Z.min 10 (error_count c + 1))
       - (Z.min 11 (error_count c) - Z.min 10 (error_count c)))%Z) as Herr.
  { intros e. unfold error_report.
    destruct (Z.leb_spec (error_count c + 1) 10);
      [| destruct (Z.eqb_spec (error_count c + 1) 11)];
      rewrite ?tally_cons; simpl;
      change (tally is_detailed_report []) with 0%Z;
      change (tally is_suppression_notice []) with 0%Z; lia. }
  assert (tally is_detailed_report (progress_report idx n p) = 0%Z ∧
          tally is_suppression_notice (progress_report idx n p) = 0%Z)
    as [Hprog1 Hprog2].
  { unfold progress_report. by case_match. }
  destruct U as [Hin|e Hout|rows Hout|rows Hout|rows e lb Hout]; simpl;
    rewrite ?tally_app, ?tally_cons, ?tally_app, ?tally_cons, ?Hprog1, ?Hprog2;
    simpl;
    change (tally is_detailed_report []) with 0%Z;
    change (tally is_suppression_notice []) with 0%Z;
    try destruct (Herr e); lia.
Qed.

Lemma players_run_reports BASE n idx ps c st c' st' evs :
  players_run BASE n idx ps c st c' st' evs →
  (0 ≤ error_count c)%Z →
  (error_count c ≤ error_count c')%Z ∧
  (tally is_detailed_report evs
   ≤ Z.min 10 (error_count c') - Z.min 10 (error_count c))%Z ∧
  (tally is_suppression_notice evs
   ≤ (Z.min 11 (error_count c') - Z.min 10 (error_count c'))
     - (Z.min 11 (error_count c) - Z.min 10 (error_count c)))%Z.
Proof.
  induction 1 as [|idx p ps c c1 c2 st st1 st2 evs1 evs2 U R IH]; intros Hc.
  { change (tally is_detailed_report []) with 0%Z.
    change (tally is_suppression_notice []) with 0%Z. lia. }
  destruct (player_unit_reports _ _ _ _ _ _ _ _ _ U Hc) as (H1 & H2 & H3).
  destruct IH as (H4 & H5 & H6); [lia |].
  rewrite !tally_app. lia.
Qed.

(** X10.  However many players go wrong, a run of [fetch_player_data]
    prints the exception of at most ten of them, and the notice that further
    ones are held back at most once. *)
Theorem error_lines_are_bounded BASE env player_ids w :
  (tally is_detailed_report
     (events_since w (fetch_player_data BASE env player_ids w).2) ≤ 10)%Z ∧
  (tally is_suppression_notice
     (events_since w (fetch_player_data BASE env player_ids w).2) ≤ 1)%Z.
Proof.
  unfold fetch_player_data.
  destruct (fetch_player_data_run BASE env player_ids w)
    as (c & st' & evs & H & P).
  rewrite H. simpl. rewrite events_since_app.
  destruct (players_run_reports _ _ _ _ _ _ _ _ _ P) as (H1 & H2 & H3);
    [simpl; lia |].
  rewrite !tally_cons, !tally_app, !tally_cons. simpl in *.
  change (tally is_detailed_report []) with 0%Z.
  change (tally is_suppression_notice []) with 0%Z. lia.
Qed.

(** ** The index builder, further *)

Lemma dict_contains_elem (d : pydict) (k : pykey) :
  dict_contains d k = true ↔ Some k ∈ (λ kv, hash_key kv.1) <$> d.
Proof.
  unfold dict_contains. induction d as [|[key v] d IH]; simpl.
  - split; [done | by intros ?%elem_of_nil].
  - rewrite orb_true_iff, IH, elem_of_cons, bool_decide_eq_true. naive_solver.
Qed.

Lemma remember_keys (d : pydict) player :
  NoDup ((λ kv, hash_key kv.1) <$> d) →
  Forall (λ kv, is_Some (hash_key kv.1)) d →
  NoDup ((λ kv, hash_key kv.1) <$> remember d player) ∧
  Forall (λ kv, is_Some (hash_key kv.1)) (remember d player).
Proof.
  intros Hdup Hall. unfold remember.
  destruct (usable player); [| done].
  destruct (hash_key (entry_id player)) as [k|] eqn:Hk; [| done].
  destruct (dict_contains d k) eqn:Hin; [done |]. split.
  - rewrite fmap_app. apply NoDup_app. split; [done |]. simpl. split.
    + intros k' Hk' ->%list_elem_of_singleton. rewrite Hk in Hk'.
      apply dict_contains_elem in Hk'. congruence.
    + apply NoDup_singleton.
  - apply Forall_app. split; [done |]. constructor; [| done]. simpl.
    rewrite Hk. eauto.
Qed.

Lemma foldl_remember_keys entries (d : pydict) :
  NoDup ((λ kv, hash_key kv.1) <$> d) →
  Forall (λ kv, is_Some (hash_key kv.1)) d →
  NoDup ((λ kv, hash_key kv.1) <$> foldl remember d entries) ∧
  Forall (λ kv, is_Some (hash_key kv.1)) (foldl remember d entries).
Proof.
  revert d. induction entries as [|player entries IH]; intros d Hdup Hall;
    simpl; [done |].
  destruct (remember_keys d player Hdup Hall). by apply IH.
Qed.

(** X11.  No two entries of the built index have the same key, where the
    same means what it means to a Python dict: 1, 1.0 and [True] are one
    key. *)
Theorem index_keys_are_distinct team_files :
  NoDup ((λ kv, hash_key kv.1)
           <$> player_names (generate_player_names team_files).2) ∧
  Forall (λ kv, is_Some (hash_key kv.1))
    (player_names (generate_player_names team_files).2).
Proof.
  unfold generate_player_names.
  destruct (generate_player_names_scanned team_files (IndexState [] []))
    as [rep H].
  rewrite H. simpl. apply foldl_remember_keys; constructor.
Qed.

Lemma scanned_app fs1 fs2 : scanned (fs1 ++ fs2) = scanned fs1 ++ scanned fs2.
Proof. unfold scanned. apply bind_app. Qed.

Lemma for_each_app {S A} (xs1 xs2 : list A) (body : A → py S unit) (s : S) :
  for_each (xs1 ++ xs2) body s
  = match for_each xs1 body s with
    | (Returned _, s1) => for_each xs2 body s1
    | (Raised e, s1) => (Raised e, s1)
    end.
Proof.
  revert s. induction xs1 as [|x xs1 IH]; intros s; [done |].
  simpl. unfold bind. destruct (body x s) as [[[]|e] s1]; [| done].
  apply IH.
Qed.

Lemma scan_loop_report (name : string) items (s : index_state) :
  ∃ rep,
    match for_each items add_player s with
    | (Returned a, s') => (Returned a, s')
    | (Raised e, s') =>
        (Returned tt, IndexState (player_names s') (reported s' ++ [(name, e)]))
    end
    = (Returned tt,
       IndexState (foldl remember (player_names s) (reached_items items))
         (reported s ++ rep)).
Proof.
  destruct (add_players_reached items s) as [[[]|e] Hr]; rewrite Hr; simpl.
  - exists []. by rewrite app_nil_r.
  - by eexists.
Qed.

Lemma scan_team_file_report team_file (s : index_state) :
  ∃ rep,
    scan_team_file team_file s
    = (Returned tt,
       IndexState (foldl remember (player_names s) (reached team_file.2))
         (reported s ++ rep)).
Proof.
  unfold scan_team_file, try_except, bind, iterate, reached, ret, raise.
  destruct team_file as [name [e|roster_data]]; simpl; [by eexists |].
  destruct roster_data as [| | | |str|items|members]; simpl;
    try (by eexists).
  - destruct (scan_loop_report name (characters str) s) as [rep Hrep].
    rewrite reached_items_characters in Hrep. eauto.
  - apply scan_loop_report.
  - destruct (scan_loop_report name (JStr <$> unique (members.*1)) s)
      as [rep Hrep].
    rewrite reached_items_strings in Hrep. eauto.
Qed.

Lemma scan_files_report team_files (s : index_state) :
  ∃ rep,
    for_each team_files scan_team_file s
    = (Returned tt,
       IndexState (foldl remember (player_names s) (scanned team_files))
         (reported s ++ rep)).
Proof.
  revert s. induction team_files as [|team_file team_files IH]; intros s; simpl.
  - exists []. rewrite app_nil_r. by destruct s.
  - unfold bind.
    destruct (scan_team_file_report team_file s) as [rep1 H1]. rewrite H1.
    destruct (IH (IndexState
                    (foldl remember (player_names s) (reached team_file.2))
                    (reported s ++ rep1)))
      as [rep2 H2].
    exists (rep1 ++ rep2). rewrite H2. unfold scanned. simpl.
    by rewrite foldl_app, app_assoc.
Qed.

(** X12.  A file that cannot be opened or parsed is reported with its
    exception and gives nothing to the index: the index is the one built
    from the other files, those scanned before and those scanned after. *)
Theorem unreadable_file_is_passed_over team_files1 team_files2
    (name : string) (e : exn) :
  player_names
    (generate_player_names (team_files1 ++ (name, inl e) :: team_files2)).2
  = player_names (generate_player_names (team_files1 ++ team_files2)).2 ∧
  (name, e)
    ∈ reported
        (generate_player_names (team_files1 ++ (name, inl e) :: team_files2)).2.
Proof.
  unfold generate_player_names. split.
  - destruct (scan_files_report (team_files1 ++ (name, inl e) :: team_files2)
                (IndexState [] [])) as [rep H].
    destruct (scan_files_report (team_files1 ++ team_files2)
                (IndexState [] [])) as [rep' H'].
    rewrite H, H'. simpl. rewrite !scanned_app. do 2 f_equal.
  - rewrite for_each_app.
    destruct (scan_files_report team_files1 (IndexState [] [])) as [rep1 H1].
    rewrite H1. simpl. unfold bind at 1.
    unfold scan_team_file at 1, try_except, bind, raise. simpl.
    match goal with
    | |- context [for_each team_files2 scan_team_file ?s] =>
        destruct (scan_files_report team_files2 s) as [rep2 H2]; rewrite H2
    end.
    simpl. apply elem_of_app. left. apply elem_of_app. right. left.
Qed.

Lemma foldl_remember_prefix entries (d : pydict) :
  d `prefix_of` foldl remember d entries.
Proof.
  revert d. induction entries as [|player entries IH]; intros d; simpl;
    [done |].
  etrans; [| apply IH]. unfold remember.
  repeat case_match; try done. by apply prefix_app_r.
Qed.

Lemma dict_contains_prefix (d d' : pydict) k :
  d `prefix_of` d' → dict_contains d k = true → dict_contains d' k = true.
Proof.
  intros [rest ->]. unfold dict_contains. rewrite existsb_app.
  by intros ->.
Qed.

Lemma remember_contains (d : pydict) player k :
  usable player = true → hash_key (entry_id player) = Some k →
  dict_contains (remember d player) k = true.
Proof.
  intros Husable Hk. unfold remember. rewrite Husable, Hk.
  destruct (dict_contains d k) eqn:Hin; [done |].
  unfold dict_contains. rewrite existsb_app. simpl. rewrite Hk.
  rewrite bool_decide_eq_true_2 by done. by rewrite orb_true_r.
Qed.

Lemma foldl_remember_contains entries (d : pydict) player k :
  player ∈ entries →
  usable player = true → hash_key (entry_id player) = Some k →
  dict_contains (foldl remember d entries) k = true.
Proof.
  revert d. induction entries as [|x entries IH]; intros d Hin Husable Hk.
  { by apply elem_of_nil in Hin. }
  simpl. apply elem_of_cons in Hin as [->|Hin]; [| by apply IH].
  eapply dict_contains_prefix; [apply foldl_remember_prefix |].
  by apply remember_contains.
Qed.

Lemma foldl_remember_known entries (d : pydict) :
  (∀ player k, player ∈ entries → usable player = true →
               hash_key (entry_id player) = Some k →
               dict_contains d k = true) →
  foldl remember d entries = d.
Proof.
  induction entries as [|x entries IH]; intros Hknown; simpl; [done |].
  assert (remember d x = d) as ->.
  { unfold remember. destruct (usable x) eqn:Husable; [| done].
    destruct (hash_key (entry_id x)) as [k|] eqn:Hk; [| done].
    rewrite (Hknown x k); [done | left | done..]. }
  apply IH. intros player k Hin. apply Hknown. by right.
Qed.

(** X13.  Scanning further files only adds to the index: the index built
    from a list of files is the beginning, entry for entry, of the index
    built from that list followed by more files. *)
Theorem more_files_only_add team_files1 team_files2 :
  player_names (generate_player_names team_files1).2
    `prefix_of`
  player_names (generate_player_names (team_files1 ++ team_files2)).2.
Proof.
  unfold generate_player_names.
  destruct (scan_files_report team_files1 (IndexState [] [])) as [rep H].
  destruct (scan_files_report (team_files1 ++ team_files2) (IndexState [] []))
    as [rep' H'].
  rewrite H, H'. simpl. rewrite scanned_app, foldl_app.
  apply foldl_remember_prefix.
Qed.

(** X14.  Scanning every file a second time changes nothing: the index
    built from a list of files followed by the same files again is the
    index built from the list. *)
Theorem rescan_changes_nothing team_files :
  player_names (generate_player_names (team_files ++ team_files)).2
  = player_names (generate_player_names team_files).2.
Proof.
  unfold generate_player_names.
  destruct (scan_files_report team_files (IndexState [] [])) as [rep H].
  destruct (scan_files_report (team_files ++ team_files) (IndexState [] []))
    as [rep' H'].
  rewrite H, H'. simpl. rewrite scanned_app, foldl_app.
  apply foldl_remember_known. intros player k Hin Husable Hk.
  by eapply foldl_remember_contains.
Qed.

(** ** The crawler *)

Lemma player_unit_events path n idx p c st c' st' evs :
  player_unit path n idx p c st c' st' evs → Forall (of_player_unit path) evs.
Proof.
  destruct 1; unfold error_report, progress_report; repeat case_match;
    repeat constructor.
Qed.

Lemma players_run_events BASE n idx ps c st c' st' evs e :
  players_run BASE n idx ps c st c' st' evs →
  e ∈ evs → ∃ q, q ∈ ps ∧ of_player_unit (p_file BASE q) e.
Proof.
  induction 1 as [|idx p ps c c1 c2 st st1 st2 evs1 evs2 U _ IH]; intros Hin.
  { by apply elem_of_nil in Hin. }
  apply elem_of_app in Hin as [Hin|Hin].
  - exists p. split; [left |].
    apply player_unit_events in U. rewrite Forall_forall in U. by apply U.
  - destruct (IH Hin) as (q & Hq & He). exists q. split; [by right | done].
Qed.

(** X15.  [crawl_nba_network] returns normally whatever the provider and
    the writes do, loses nothing of the store, and looks for the career
    file of exactly those players that are in a listing that came back
    during the crawl. *)
Theorem crawl_looks_at_the_listed_players BASE env (iteration : gset Z → list Z)
    after_year current_year w :
  (∀ X, iteration X ≡ₚ elements X) →
  ∃ w',
    crawl_nba_network BASE env iteration after_year current_year w
      = (Returned tt, w') ∧
    store w ⊆ store w' ∧
    ∀ p_id,
      (∃ b, EvExists (p_file BASE p_id) b ∈ events_since w w')
      ↔ listed_player (events_since w w') p_id.
Proof.
  intros Hiter. unfold crawl_nba_network.
  destruct (fetch_team_rosters_run BASE env after_year current_year w)
    as (ids & st1 & evs1 & H1 & Y1).
  rewrite H1. unfold fetch_player_data.
  destruct (fetch_player_data_run BASE env (iteration ids)
              (World st1 (trace w ++ evs1)))
    as (c & st2 & evs2 & H2 & P2).
  rewrite H2. simpl. eexists. split; [done |].
  rewrite <- app_assoc, events_since_app. simpl.
  split.
  { etrans; [by eapply years_run_grows | by eapply players_run_grows]. }
  assert (∀ p, p ∈ iteration ids ↔ listed_player evs1 p) as Hids.
  { intros p. rewrite Hiter, elem_of_elements.
    rewrite (years_run_ids _ _ _ _ _ _ _ p Y1). unfold listed_player.
    set_solver. }
  assert (∀ p, listed_player
                 (evs1 ++ EvPrint (MsgSavingPlayers
                                     (Z.of_nat (length (iteration ids))))
                    :: evs2 ++ [EvPrint (MsgComplete (saved_count c)
                                           (skipped_count c) (error_count c))])
                 p
               ↔ listed_player evs1 p) as Hlisted.
  { intros p. unfold listed_player. split.
    - intros (season & rows & Hin & Hp). exists season, rows.
      split; [| done].
      apply elem_of_app in Hin as [?|Hin]; [done |].
      apply elem_of_cons in Hin as [?|Hin]; [done |].
      apply elem_of_app in Hin as [Hin|Hin].
      + by destruct (players_run_events _ _ _ _ _ _ _ _ _ _ P2 Hin)
          as (q & _ & ?).
      + by apply list_elem_of_singleton in Hin.
    - intros (season & rows & Hin & Hp). exists season, rows.
      split; [apply elem_of_app; by left | done]. }
  intros p. rewrite Hlisted, <- Hids. split.
  - intros [b Hin].
    apply elem_of_app in Hin as [Hin|Hin].
    { pose proof (years_run_concerns _ _ _ _ _ _ _ Y1) as Hall.
      rewrite Forall_forall in Hall. apply Hall in Hin.
      destruct Hin as (t & season & _ & Heq).
      symmetry in Heq. by apply team_file_not_p_file in Heq. }
    apply elem_of_cons in Hin as [?|Hin]; [done |].
    apply elem_of_app in Hin as [Hin|Hin];
      [| by apply list_elem_of_singleton in Hin].
    destruct (players_run_events _ _ _ _ _ _ _ _ _ _ P2 Hin) as (q & Hq & He).
    simpl in He. by apply p_file_player in He as ->.
  - intros Hp.
    destruct (players_run_looked_at _ _ _ _ _ _ _ _ _ P2 p Hp) as [b Hb].
    exists b. apply elem_of_app. right. right. apply elem_of_app. by left.
Qed.

(** X16.  Every identifier of the input of [fetch_player_data] has its file
    looked at, whatever went wrong with the players before it. *)
Theorem every_player_is_looked_at BASE env player_ids w p_id :
  p_id ∈ player_ids →
  ∃ b, EvExists (p_file BASE p_id) b
         ∈ events_since w (fetch_player_data BASE env player_ids w).2.
Proof.
  intros Hin. unfold fetch_player_data.
  destruct (fetch_player_data_run BASE env player_ids w)
    as (c & st' & evs & H & P).
  rewrite H. simpl. rewrite events_since_app.
  destruct (players_run_looked_at _ _ _ _ _ _ _ _ _ P p_id Hin) as [b Hb].
  exists b. right. apply elem_of_app. by left.
Qed.

(** * The further properties at work *)

(** X1 at the turn of the century. *)
Lemma season_label_format_example :
  (0 ≤ 1999)%Z ∧
  season_str 1999
  = pretty 1999%Z +:+ "-"
      +:+ (if (9 <=? 1999)%Z then two_digits (1999 + 1)
           else pretty (1999 + 1)%Z).
Proof. split; [lia | apply season_label_format; lia]. Defined.

(** X2 for two years with the same last digits of the next year. *)
Lemma season_labels_differ_example :
  1920%Z ≠ 2020%Z ∧ season_str 1920 ≠ season_str 2020.
Proof. split; [lia | apply season_labels_differ; lia]. Defined.

(** X4 with the bounds the wrong way round. *)
Lemma empty_range_does_nothing_example :
  (2019 < 2020)%Z ∧
  fetch_team_rosters "/data" demo_provider 2020 2019 fresh_world
  = (Returned ∅, fresh_world).
Proof. split; [lia | apply empty_range_does_nothing; lia]. Defined.

(** X6 for team 6 of the first season of the demo provider. *)
Lemma every_listed_team_is_looked_at_example :
  EvAllPlayers "2020-21" (inr demo_listing)
    ∈ events_since fresh_world
        (fetch_team_rosters "/data" demo_provider 2020 2021 fresh_world).2 ∧
  6%Z ∈ valid_teams demo_listing ∧
  ∃ b, EvExists (team_file "/data" 6 "2020-21") b
         ∈ events_since fresh_world
             (fetch_team_rosters "/data" demo_provider 2020 2021 fresh_world).2.
Proof.
  assert (EvAllPlayers "2020-21" (inr demo_listing)
            ∈ events_since fresh_world
                (fetch_team_rosters "/data" demo_provider 2020 2021
                   fresh_world).2)
    as Hlisted by (vm_compute; right; left).
  assert (6%Z ∈ valid_teams demo_listing) as Hteam
    by (vm_compute; right; left).
  split; [exact Hlisted |]. split; [exact Hteam |].
  exact (every_listed_team_is_looked_at "/data" demo_provider 2020 2021
           fresh_world "2020-21" demo_listing 6 Hlisted Hteam).
Defined.

(** X7 for the roster of team 5 in the first season. *)
Lemma stored_roster_is_as_fetched_example :
  store (fetch_team_rosters "/data" demo_provider 2020 2021 fresh_world).2
    !! "/data/teams/5_2020-21.json" = Some (RosterJson []) ∧
  (store fresh_world !! "/data/teams/5_2020-21.json" = Some (RosterJson []) ∨
   (∃ t season roster,
      EvTeamRoster t season (inr roster)
        ∈ events_since fresh_world
            (fetch_team_rosters "/data" demo_provider 2020 2021 fresh_world).2 ∧
      "/data/teams/5_2020-21.json" = team_file "/data" t season ∧
      RosterJson [] = RosterJson roster) ∨
   (∃ bytes,
      RosterJson [] = RawFile bytes ∧
      "/data/teams/5_2020-21.json"
        ∈ created_paths
            (events_since fresh_world
               (fetch_team_rosters "/data" demo_provider 2020 2021
                  fresh_world).2))).
Proof.
  assert (store (fetch_team_rosters "/data" demo_provider 2020 2021
                   fresh_world).2
            !! "/data/teams/5_2020-21.json" = Some (RosterJson []))
    as Hstored by (vm_compute; reflexivity).
  split; [exact Hstored |].
  exact (stored_roster_is_as_fetched "/data" demo_provider 2020 2021
           fresh_world "/data/teams/5_2020-21.json" (RosterJson []) Hstored).
Defined.

(** X8 for three players of whom none has a file yet. *)
Lemma run_fetches_the_missing_careers_example :
  NoDup [1%Z; 2%Z; 3%Z] ∧
  fetched_players
    (events_since fresh_world
       (fetch_player_data "/data" demo_provider [1%Z; 2%Z; 3%Z] fresh_world).2)
  = filter (λ p, store fresh_world !! p_file "/data" p = None)
      [1%Z; 2%Z; 3%Z].
Proof.
  assert (NoDup [1%Z; 2%Z; 3%Z]) as Hdup
    by (refine (bool_decide_unpack _ _); vm_compute; exact I).
  split; [exact Hdup |].
  exact (run_fetches_the_missing_careers "/data" demo_provider
           [1%Z; 2%Z; 3%Z] fresh_world Hdup).
Defined.

(** X9 for the players 1 and 3, whose careers the demo provider has. *)
Lemma rerun_of_players_is_silent_example :
  tally is_error
    (events_since fresh_world
       (fetch_player_data "/data" demo_provider [1%Z; 3%Z] fresh_world).2)
  = 0%Z ∧
  ∃ w1 w2,
    w1 = (fetch_player_data "/data" demo_provider [1%Z; 3%Z] fresh_world).2 ∧
    fetch_player_data "/data" demo_provider [1%Z; 3%Z] w1 = (Returned tt, w2) ∧
    store w2 = store w1 ∧
    events_since w1 w2
    = EvPrint (MsgSavingPlayers (Z.of_nat (length [1%Z; 3%Z])))
        :: ((λ p, EvExists (p_file "/data" p) true) <$> [1%Z; 3%Z])
        ++ [EvPrint (MsgComplete 0 (Z.of_nat (length [1%Z; 3%Z])) 0)].
Proof.
  assert (tally is_error
            (events_since fresh_world
               (fetch_player_data "/data" demo_provider [1%Z; 3%Z]
                  fresh_world).2)
          = 0%Z)
    as Hclean by (vm_compute; reflexivity).
  split; [exact Hclean |].
  exact (rerun_of_players_is_silent "/data" demo_provider [1%Z; 3%Z]
           fresh_world Hclean).
Defined.

(** X15 with the set gone through in the order of its elements. *)
Lemma crawl_looks_at_the_listed_players_example :
  (∀ X : gset Z, elements X ≡ₚ elements X) ∧
  ∃ w',
    crawl_nba_network "/data" demo_provider elements 2020 2020 fresh_world
      = (Returned tt, w') ∧
    store fresh_world ⊆ store w' ∧
    ∀ p_id,
      (∃ b, EvExists (p_file "/data" p_id) b ∈ events_since fresh_world w')
      ↔ listed_player (events_since fresh_world w') p_id.
Proof.
  assert (∀ X : gset Z, elements X ≡ₚ elements X) as Hiter by reflexivity.
  split; [exact Hiter |].
  exact (crawl_looks_at_the_listed_players "/data" demo_provider elements
           2020 2020 fresh_world Hiter).
Defined.

(** X16 for the last of four players. *)
Lemma every_player_is_looked_at_example :
  4%Z ∈ [1%Z; 2%Z; 3%Z; 4%Z] ∧
  ∃ b, EvExists (p_file "/data" 4) b
         ∈ events_since fresh_world
             (fetch_player_data "/data" demo_provider [1%Z; 2%Z; 3%Z; 4%Z]
                fresh_world).2.
Proof.
  assert (4%Z ∈ [1%Z; 2%Z; 3%Z; 4%Z]) as Hin by (do 3 right; left).
  split; [exact Hin |].
  exact (every_player_is_looked_at "/data" demo_provider
           [1%Z; 2%Z; 3%Z; 4%Z] fresh_world 4 Hin).
Defined.
